(** * telegram_checker: keyword digests of Telegram groups

    A shallow embedding of [TelegramChecker] (telegram_checker.py) and the
    properties of its pipeline: time window, post and comment fetching,
    keyword filter, highlighter and the two digest writers.

    Python [str] values are modelled as [string]; [+:+] is string
    concatenation.  What the Python runtime supplies (case mappings, the
    time zone database, date formatting) is collected in the class
    [Runtime]; the remote service is a [client] value. *)

From Stdlib Require Import ZArith Lia Bool Ascii String List.
From Stdlib Require Import Sorting.Permutation Sorting.Sorted.
From Stdlib Require Import Numbers.DecimalString DecimalZ DecimalPos.
From stdpp Require Import base option gmap strings list fin_maps.

Open Scope string_scope.

(* stdpp blocks the unfolding of string concatenation; the proofs below
   compute with it. *)
#[local] Arguments String.append !s1 s2 : simpl nomatch.

(** ** Strings *)

Module Str.

Definition is_empty (s : string) : bool :=
  match s with EmptyString => true | String _ _ => false end.

Fixpoint map (f : ascii -> ascii) (s : string) : string :=
  match s with
  | EmptyString => EmptyString
  | String c s' => String (f c) (map f s')
  end.

(** [starts_with k t]: [t.startswith(k)]. *)
Fixpoint starts_with (k t : string) : bool :=
  match k, t with
  | EmptyString, _ => true
  | String _ _, EmptyString => false
  | String c k', String d t' => Ascii.eqb c d && starts_with k' t'
  end.

(** [contains k t]: the Python test [k in t] on two [str] values. *)
Fixpoint contains (k t : string) : bool :=
  starts_with k t ||
  match t with
  | EmptyString => false
  | String _ t' => contains k t'
  end.

Definition concat (l : list string) : string :=
  fold_right String.append EmptyString l.

(** [str(n)] for a Python [int]. *)
Definition of_Z (n : Z) : string := NilZero.string_of_int (Z.to_int n).

End Str.

(** ** Runtime services and data model *)

(** A wall-clock [datetime] in the zone of the checker: proleptic Gregorian
    day number ([date.toordinal()]) and microsecond of the day. *)
Record datetime := { ordinal : Z; micros : Z }.

Class Runtime := {
  (** [s.lower()], on whole strings: the mapping may depend on the
      context of a character and may change the length *)
  lower : string -> string;
  (** the empty string, and only it, has an empty lower-case form *)
  lower_empty : forall s, lower s = EmptyString <-> s = EmptyString;
  (** the representative by which [re.IGNORECASE] compares characters *)
  fold : ascii -> ascii;
  (** [d.astimezone(ZoneInfo("Europe/Kyiv"))] of the instant [d] *)
  astimezone : Z -> datetime;
  (** [t.strftime('%Y-%m-%d %H:%M:%S')] *)
  strftime : datetime -> string
}.

Inductive exn :=
| MsgIdInvalidError (msg : string)
| TypeError
| ValueError
| OverflowError
| OtherError (msg : string).

Inductive result (A : Type) :=
| Ok (a : A)
| Raised (e : exn).
Arguments Ok {A} a.
Arguments Raised {A} e.

(** The attribute [username] of an entity: absent ([hasattr] is false) or
    present with an optional string. *)
Inductive attr :=
| NoAttr
| Attr (v : option string).

Record entity := { peer_id : Z; username : attr }.

(** [types.Message]: [date] is the instant of the message, in microseconds
    of the epoch. *)
Record message := {
  id : Z;
  text : option string;
  date : Z;
  reply_to_msg_id : option Z;
  replies : option Z
}.

(** The tuples threaded through the pipeline. *)
Definition post_t : Type := entity * message * string.
Definition comment_t : Type := entity * message * string * message.

Record TelegramChecker := {
  api_id : Z;
  api_hash : string;
  groups : list string;
  keywords : list string;
  time_filter : Z
}.

(** The remote service: resolving a group may raise; a message stream
    yields messages, newest first, and may end by raising. *)
Record client := {
  get_entity : string -> result entity;
  iter_messages : entity -> option Z -> list message * option exn
}.

(** ** The store: list objects, files and the console *)

Definition loc := positive.

Inductive pylist :=
| Posts (l : list post_t)
| Comments (l : list comment_t).

Record world := {
  heap : gmap loc pylist;
  files : gmap string string;
  stdout : list string;
  clock : datetime
}.

Definition M (A : Type) : Type := world -> result A * world.

Definition ret {A} (a : A) : M A := fun w => (Ok a, w).

Definition raise {A} (e : exn) : M A := fun w => (Raised e, w).

Definition bind {A B} (m : M A) (k : A -> M B) : M B :=
  fun w => match m w with
           | (Ok a, w') => k a w'
           | (Raised e, w') => (Raised e, w')
           end.

Notation "x <- m ;; k" := (bind m (fun x => k))
  (at level 100, m at next level, right associativity).
Notation "m ;;; k" := (bind m (fun _ => k))
  (at level 100, right associativity).

Definition lift {A} (r : result A) : M A := fun w => (r, w).

Definition print (s : string) : M unit :=
  fun w => (Ok tt, {| heap := heap w; files := files w;
                      stdout := (stdout w ++ [s])%list; clock := clock w |}).

Definition now : M datetime := fun w => (Ok (clock w), w).

Definition alloc (o : pylist) : M loc :=
  fun w => let l := fresh (dom (heap w)) in
           (Ok l, {| heap := <[l := o]> (heap w); files := files w;
                     stdout := stdout w; clock := clock w |}).

(** Reading a list object; every reference the program holds is allocated,
    the error case is never taken. *)
Definition load (l : loc) : M pylist :=
  fun w => match heap w !! l with
           | Some o => (Ok o, w)
           | None => (Raised TypeError, w)
           end.

Definition store (l : loc) (o : pylist) : M unit :=
  fun w => (Ok tt, {| heap := <[l := o]> (heap w); files := files w;
                      stdout := stdout w; clock := clock w |}).

(** [open(path, 'w')]: the file is created or truncated. *)
Definition open_w (path : string) : M unit :=
  fun w => (Ok tt, {| heap := heap w; files := <[path := EmptyString]> (files w);
                      stdout := stdout w; clock := clock w |}).

(** [f.write(s)] on a file opened by [open_w]. *)
Definition write (path s : string) : M unit :=
  fun w => (Ok tt, {| heap := heap w;
                      files := <[path := default EmptyString (files w !! path) +:+ s]> (files w);
                      stdout := stdout w; clock := clock w |}).

(** [for x in l: body x] *)
Fixpoint for_each {A} (l : list A) (body : A -> M unit) : M unit :=
  match l with
  | [] => ret tt
  | x :: l' => body x ;;; for_each l' body
  end.

(** ** Text constants *)

Definition dquote : string := String (Ascii.ascii_of_nat 34) EmptyString.
Definition nl : string := String (Ascii.ascii_of_nat 10) EmptyString.

Definition exn_str (e : exn) : string :=
  match e with
  | MsgIdInvalidError msg => msg
  | TypeError => "TypeError"
  | ValueError => "ValueError"
  | OverflowError => "OverflowError"
  | OtherError msg => msg
  end.

(** ** highlight_keywords *)

(** A literal of the pattern ([re.escape(k)]) tried at the start of [t]
    under [re.IGNORECASE]: the matched text, in the casing of [t], and the
    rest of [t]. *)
Fixpoint match_literal `{Runtime} (k t : string) : option (string * string) :=
  match k with
  | EmptyString => Some (EmptyString, t)
  | String c k' =>
      match t with
      | EmptyString => None
      | String d t' =>
          if Ascii.eqb (fold c) (fold d) then
            match match_literal k' t' with
            | Some (m, r) => Some (String d m, r)
            | None => None
            end
          else None
      end
  end.

(** The alternation at the start of [t]: branches are tried in the order
    of the pattern and the first one that succeeds wins.  With
    [must_advance] an empty match is rejected and the next branch is
    tried. *)
Fixpoint match_alts `{Runtime} (must_advance : bool) (alts : list string) (t : string)
  : option (string * string) :=
  match alts with
  | [] => None
  | k :: alts' =>
      match match_literal k t with
      | Some (m, r) =>
          if must_advance && Str.is_empty m then match_alts must_advance alts' t
          else Some (m, r)
      | None => match_alts must_advance alts' t
      end
  end.

(** [pattern.search]: the leftmost position with a match; [must_advance]
    only constrains the first position tried.  Returns the text skipped,
    the match and the rest. *)
Fixpoint search `{Runtime} (alts : list string) (must_advance : bool) (t : string)
  : option (string * string * string) :=
  match match_alts must_advance alts t with
  | Some (m, r) => Some (EmptyString, m, r)
  | None =>
      match t with
      | EmptyString => None
      | String c t' =>
          match search alts false t' with
          | Some (pre, m, r) => Some (String c pre, m, r)
          | None => None
          end
      end
  end.

Inductive segment :=
| Gap (s : string)
| Hit (m : string).

(** The loop of [pattern.sub]: successive searches, each from the end of
    the previous match; after an empty match the next search must
    advance.  [fuel] bounds the number of searches. *)
Fixpoint scan `{Runtime} (fuel : nat) (alts : list string) (must_advance : bool) (t : string)
  : list segment :=
  match fuel with
  | O => [Gap t]
  | S fuel' =>
      match search alts must_advance t with
      | None => [Gap t]
      | Some (pre, m, r) =>
          Gap pre :: Hit m :: scan fuel' alts (Str.is_empty m) r
      end
  end.

(** The branches of ["|".join(re.escape(k) for k in keywords)]: one per
    keyword; the empty pattern of an empty list is one empty branch. *)
Definition branches (keywords : list string) : list string :=
  match keywords with
  | [] => [EmptyString]
  | _ => keywords
  end.

Definition segments `{Runtime} (text : string) (keywords : list string) : list segment :=
  scan (2 * String.length text + 2) (branches keywords) false text.

Definition span_open : string :=
  "<span style=" +:+ dquote +:+
  "background-color: yellow; color: black; font-weight: bold;" +:+ dquote +:+ ">".
Definition span_close : string := "</span>".

Definition repl (m : string) : string := span_open +:+ m +:+ span_close.

Definition render (f : string -> string) (s : segment) : string :=
  match s with
  | Gap g => g
  | Hit m => f m
  end.

Definition highlight_keywords `{Runtime} (text : string) (keywords : list string) : string :=
  Str.concat (map (render repl) (segments text keywords)).

(** ** _get_time_filter *)

Definition DAY_US : Z := 86400000000.
Definition HOUR_US : Z := 3600000000.
Definition MAXORDINAL : Z := 3652059.
Definition MAX_DELTA_DAYS : Z := 999999999.

Definition to_us (d : datetime) : Z := (ordinal d * DAY_US + micros d)%Z.
Definition of_us (u : Z) : datetime :=
  {| ordinal := (u / DAY_US)%Z; micros := (u mod DAY_US)%Z |}.

(** Comparison of two datetimes of the same zone: by their fields. *)
Definition dt_ltb (a b : datetime) : bool :=
  (ordinal a <? ordinal b)%Z || ((ordinal a =? ordinal b)%Z && (micros a <? micros b)%Z).
Definition dt_leb (a b : datetime) : bool := negb (dt_ltb b a).

(** [timedelta(hours=h)], in microseconds. *)
Definition timedelta_hours (h : Z) : result Z :=
  let us := (h * HOUR_US)%Z in
  if (Z.abs (us / DAY_US) <=? MAX_DELTA_DAYS)%Z then Ok us else Raised OverflowError.

(** [d - td]: arithmetic on the wall clock, within [datetime.min] and
    [datetime.max]. *)
Definition datetime_sub (d : datetime) (td : Z) : result datetime :=
  let r := of_us (to_us d - td)%Z in
  if (1 <=? ordinal r)%Z && (ordinal r <=? MAXORDINAL)%Z then Ok r
  else Raised OverflowError.

(** [now.replace(hour=0, minute=0, second=0, microsecond=0)] *)
Definition replace_midnight (d : datetime) : datetime :=
  {| ordinal := ordinal d; micros := 0 |}.

Definition resolve (time_filter : Z) (now : datetime) : result datetime :=
  if (time_filter =? 0)%Z then Ok (replace_midnight now)
  else match timedelta_hours time_filter with
       | Ok td => datetime_sub now td
       | Raised e => Raised e
       end.

Definition _get_time_filter (self : TelegramChecker) : M datetime :=
  n <- now ;; lift (resolve (time_filter self) n).

(** ** fetch_posts *)

(** The [async for msg in client.iter_messages(entity)] loop of one group:
    [msgs] are the messages the stream yields and [tail] the exception it
    ends with, if any. *)
Fixpoint collect_posts `{Runtime} (time_threshold : datetime) (e : entity)
    (group_username : string) (msgs : list message) (tail : option exn)
    (posts : list post_t) : result (list post_t) :=
  match msgs with
  | [] => match tail with
          | None => Ok posts
          | Some ex => Raised ex
          end
  | msg :: msgs' =>
      let msg_time := astimezone (date msg) in
      if dt_ltb msg_time time_threshold then Ok posts
      else
        match reply_to_msg_id msg with
        | None =>
            collect_posts time_threshold e group_username msgs' tail
              (posts ++ [(e, msg, group_username)])%list
        | Some _ =>
            collect_posts time_threshold e group_username msgs' tail posts
        end
  end.

Fixpoint fetch_groups `{Runtime} (c : client) (time_threshold : datetime)
    (gs : list string) (posts : list post_t) : M (list post_t) :=
  match gs with
  | [] => ret posts
  | group_username :: gs' =>
      match get_entity c group_username with
      | Raised e =>
          print ("Failed to access group " +:+ group_username +:+ ": " +:+ exn_str e) ;;;
          fetch_groups c time_threshold gs' posts
      | Ok e =>
          print ("Processing group: " +:+ group_username) ;;;
          posts' <- lift (let (msgs, tail) := iter_messages c e None in
                          collect_posts time_threshold e group_username msgs tail posts) ;;
          fetch_groups c time_threshold gs' posts'
      end
  end.

Definition fetch_posts `{Runtime} (self : TelegramChecker) (c : client) : M (list post_t) :=
  time_threshold <- _get_time_filter self ;;
  posts <- fetch_groups c time_threshold (groups self) [] ;;
  print ("Found " +:+ Str.of_Z (Z.of_nat (length posts)) +:+
         " posts for the specified period.") ;;;
  ret posts.

(** ** Keyword filter *)

Definition str_lower `{Runtime} (s : string) : string := lower s.

(** [text and any(keyword.lower() in text.lower() for keyword in keywords)]
    as a condition. *)
Definition matches `{Runtime} (text : option string) (keywords : list string) : bool :=
  match text with
  | None => false
  | Some t =>
      negb (Str.is_empty t) &&
      existsb (fun keyword => Str.contains (str_lower keyword) (str_lower t)) keywords
  end.

Definition filter_posts_by_keywords `{Runtime} (self : TelegramChecker)
    (posts : list post_t) : list post_t :=
  List.filter (fun '(entity, post, group_username) => matches (text post) (keywords self)) posts.

(** ** Digest writers *)

(** [list.sort(key=lambda x: x[1].date)]: the stable ascending sort. *)
Fixpoint insert_by {A} (key : A -> Z) (x : A) (l : list A) : list A :=
  match l with
  | [] => [x]
  | y :: l' => if (key x <=? key y)%Z then x :: y :: l' else y :: insert_by key x l'
  end.

Definition sort_by {A} (key : A -> Z) (l : list A) : list A :=
  fold_right (insert_by key) [] l.

Definition post_date (x : post_t) : Z := date (snd (fst x)).
Definition comment_date (x : comment_t) : Z := date (snd (fst (fst x))).

(** [hasattr(entity, 'username') and entity.username] *)
Definition public_username (e : entity) : option string :=
  match username e with
  | Attr (Some u) => if Str.is_empty u then None else Some u
  | _ => None
  end.

Definition no_public_link : string := "No public link".

Definition post_link (e : entity) (post : message) : string :=
  match public_username e with
  | Some u => "https://t.me/" +:+ u +:+ "/" +:+ Str.of_Z (id post)
  | None => no_public_link
  end.

Definition comment_link (e : entity) (post comment : message) : string :=
  match public_username e with
  | Some u => "https://t.me/" +:+ u +:+ "/" +:+ Str.of_Z (id post) +:+
              "?comment=" +:+ Str.of_Z (id comment)
  | None => no_public_link
  end.

(** The six [f.write] calls of one post, given its highlighted text. *)
Definition post_writes `{Runtime} (e : entity) (post : message) (group_username : string)
    (highlighted_text : string) : list string :=
  let post_time := astimezone (date post) in
  [ "### Group: " +:+ group_username +:+ nl;
    "**Date:** " +:+ strftime post_time +:+ " (Kyiv)" +:+ nl +:+ nl;
    "**Post:**" +:+ nl +:+ nl;
    highlighted_text +:+ nl +:+ nl;
    "[Post Link](" +:+ post_link e post +:+ ")" +:+ nl +:+ nl;
    "---" +:+ nl +:+ nl ].

Definition comment_writes `{Runtime} (e : entity) (comment : message)
    (group_username : string) (post : message) (highlighted_text : string) : list string :=
  let comment_time := astimezone (date comment) in
  [ "### Group: " +:+ group_username +:+ nl;
    "**Comment Date:** " +:+ strftime comment_time +:+ " (Kyiv)" +:+ nl +:+ nl;
    "**Comment:**" +:+ nl +:+ nl;
    highlighted_text +:+ nl +:+ nl;
    "[Comment Link](" +:+ comment_link e post comment +:+ ")" +:+ nl +:+ nl;
    "---" +:+ nl +:+ nl ].

Definition saved_posts_md : string := "saved_posts.md".
Definition saved_comments_md : string := "saved_comments.md".

(** The body of the loop of [save_posts]; [pattern.sub] raises a
    [TypeError] on a text that is [None]. *)
Definition save_post `{Runtime} (self : TelegramChecker) (x : post_t) : M unit :=
  let '(e, post, group_username) := x in
  match text post with
  | None => raise TypeError
  | Some t =>
      let highlighted_text := highlight_keywords t (keywords self) in
      for_each (post_writes e post group_username highlighted_text) (write saved_posts_md)
  end.

Definition save_posts `{Runtime} (self : TelegramChecker) (posts : loc) : M unit :=
  o <- load posts ;;
  match o with
  | Comments l =>
      (* a list of 4-tuples: sorted and the file opened as below, then the
         unpacking of the first tuple fails *)
      let sorted := sort_by comment_date l in
      store posts (Comments sorted) ;;;
      open_w saved_posts_md ;;;
      match sorted with
      | [] => print "Saved 0 posts with keywords in 'saved_posts.md'."
      | _ :: _ => raise ValueError
      end
  | Posts l =>
      let sorted := sort_by post_date l in
      store posts (Posts sorted) ;;;
      open_w saved_posts_md ;;;
      for_each sorted (save_post self) ;;;
      print ("Saved " +:+ Str.of_Z (Z.of_nat (length sorted)) +:+
             " posts with keywords in 'saved_posts.md'.")
  end.

Definition save_comment `{Runtime} (self : TelegramChecker) (x : comment_t) : M unit :=
  let '(e, comment, group_username, post) := x in
  match text comment with
  | None => raise TypeError
  | Some t =>
      let highlighted_text := highlight_keywords t (keywords self) in
      for_each (comment_writes e comment group_username post highlighted_text)
               (write saved_comments_md)
  end.

Definition save_comments `{Runtime} (self : TelegramChecker) (comments : loc) : M unit :=
  o <- load comments ;;
  match o with
  | Posts l =>
      (* a list of 3-tuples: the unpacking of the first tuple fails *)
      let sorted := sort_by post_date l in
      store comments (Posts sorted) ;;;
      open_w saved_comments_md ;;;
      match sorted with
      | [] => print "Saved 0 comments with keywords in 'saved_comments.md'."
      | _ :: _ => raise ValueError
      end
  | Comments l =>
      let sorted := sort_by comment_date l in
      store comments (Comments sorted) ;;;
      open_w saved_comments_md ;;;
      for_each sorted (save_comment self) ;;;
      print ("Saved " +:+ Str.of_Z (Z.of_nat (length sorted)) +:+
             " comments with keywords in 'saved_comments.md'.")
  end.

(** ** fetch_comments *)

(** The [try] block around the reply stream of one post: every reply is
    appended to [comments] as it is yielded; a [MsgIdInvalidError] ending
    the stream is reported and the loop over the posts goes on, any other
    exception propagates.  ([tqdm] only draws a progress bar on stderr and
    iterates over the posts unchanged.) *)
Definition collect_comments (c : client) (x : post_t) (comments : list comment_t)
  : M (list comment_t) :=
  let '(e, post, group_username) := x in
  match replies post with
  | None => ret comments
  | Some _ =>
      let (rs, tail) := iter_messages c e (Some (id post)) in
      let comments' :=
        (comments ++ map (fun reply => (e, reply, group_username, post)) rs)%list in
      match tail with
      | None => ret comments'
      | Some (MsgIdInvalidError msg) =>
          print ("Skipping post " +:+ Str.of_Z (id post) +:+ " from group " +:+
                 group_username +:+ " due to error: " +:+ msg) ;;;
          ret comments'
      | Some ex => raise ex
      end
  end.

Fixpoint collect_all_comments (c : client) (posts : list post_t)
    (comments : list comment_t) : M (list comment_t) :=
  match posts with
  | [] => ret comments
  | x :: posts' =>
      comments' <- collect_comments c x comments ;;
      collect_all_comments c posts' comments'
  end.

Definition filter_comments `{Runtime} (self : TelegramChecker)
    (comments : list comment_t) : list comment_t :=
  List.filter (fun '(entity, reply, group_username, post) =>
                 matches (text reply) (keywords self)) comments.

Definition fetch_comments `{Runtime} (self : TelegramChecker) (c : client)
    (posts : list post_t) : M (list comment_t) :=
  comments <- collect_all_comments c posts [] ;;
  let filtered_comments := filter_comments self comments in
  print ("Found " +:+ Str.of_Z (Z.of_nat (length filtered_comments)) +:+
         " comments with keywords for posts in the specified period.") ;;;
  ret filtered_comments.

(** ** run *)

Definition run `{Runtime} (self : TelegramChecker) (c : client) : M unit :=
  all_posts <- fetch_posts self c ;;
  posts_with_keywords <- alloc (Posts (filter_posts_by_keywords self all_posts)) ;;
  save_posts self posts_with_keywords ;;;
  comments <- fetch_comments self c all_posts ;;
  comments_ref <- alloc (Comments comments) ;;
  save_comments self comments_ref.

(** ** A runtime for ASCII text

    Used for the worked examples: letters [A]-[Z] map to [a]-[z], dates are
    printed as the decimal instant. *)

Definition ascii_lower (c : ascii) : ascii :=
  let n := Ascii.nat_of_ascii c in
  if (65 <=? n)%nat && (n <=? 90)%nat then Ascii.ascii_of_nat (n + 32) else c.

Lemma ascii_lower_empty s : Str.map ascii_lower s = EmptyString <-> s = EmptyString.
Proof. destruct s; simpl; split; congruence. Qed.

Definition ascii_runtime : Runtime := {|
  lower := Str.map ascii_lower;
  lower_empty := ascii_lower_empty;
  fold := ascii_lower;
  astimezone := fun d => of_us (d + 2 * HOUR_US)%Z;
  strftime := fun t => Str.of_Z (to_us t)
|}.

(** * Specification vocabulary *)

(** ** Keyword filter *)

(** [keyword] occurs in [t] when case is ignored, as the filter tests it. *)
Definition occurs_ci `{Runtime} (keyword t : string) : Prop :=
  exists pre post, str_lower t = pre +:+ str_lower keyword +:+ post.

(** The condition under which the filter keeps a text. *)
Definition retained `{Runtime} (txt : option string) (kws : list string) : Prop :=
  exists t, txt = Some t /\ t <> EmptyString /\
            exists keyword, In keyword kws /\ occurs_ci keyword t.

(** A text that is present and holds a keyword, whatever its length. *)
Definition present_with_keyword `{Runtime} (txt : option string) (kws : list string) : Prop :=
  exists t, txt = Some t /\ exists keyword, In keyword kws /\ occurs_ci keyword t.

(** ** Highlighter *)

(** The matches of a scan, as [pattern.finditer] lists them: start offset
    and matched text. *)
Fixpoint spans (off : nat) (segs : list segment) : list (nat * string) :=
  match segs with
  | [] => []
  | Gap g :: segs' => spans (off + String.length g) segs'
  | Hit m :: segs' => (off, m) :: spans (off + String.length m) segs'
  end.

(** The text a scan went over. *)
Definition raw (segs : list segment) : string := Str.concat (map (render (fun m => m)) segs).

(** [m] is the keyword [k] when case is ignored, as the pattern compares
    characters. *)
Definition ci_eq `{Runtime} (k m : string) : Prop := Str.map fold k = Str.map fold m.

(** [m] stands in [t] at offset [p]. *)
Definition occurs_at (t : string) (p : nat) (m : string) : Prop :=
  exists pre post, t = pre +:+ m +:+ post /\ String.length pre = p.

(** [k1], case ignored, is a prefix of [k2]. *)
Definition ci_prefixb `{Runtime} (k1 k2 : string) : bool :=
  match match_literal k1 k2 with
  | Some _ => true
  | None => false
  end.

(** No keyword is, case ignored, a proper prefix of another one. *)
Definition prefix_freeb `{Runtime} (K : list string) : bool :=
  forallb (fun k1 =>
             forallb (fun k2 =>
                        implb (ci_prefixb k1 k2)
                              (String.length k1 =? String.length k2)%nat) K) K.

(** ** Time window *)

(** A datetime the runtime can hold: between [datetime.min] and
    [datetime.max]. *)
Definition valid_datetime (d : datetime) : Prop :=
  (1 <= ordinal d <= MAXORDINAL)%Z /\ (0 <= micros d < DAY_US)%Z.

(** ** Sorting and digests *)

(** The order of a digest: the message of [a] (the post of a post tuple,
    the comment of a comment tuple) is not dated after that of [b]. *)
Definition post_not_after (a b : post_t) : Prop :=
  let '(_, pa, _) := a in let '(_, pb, _) := b in (date pa <= date pb)%Z.
Definition comment_not_after (a b : comment_t) : Prop :=
  let '(_, ca, _, _) := a in let '(_, cb, _, _) := b in (date ca <= date cb)%Z.

(** The items dated [z]. *)
Definition post_dated (z : Z) (x : post_t) : bool :=
  let '(_, p, _) := x in (date p =? z)%Z.
Definition comment_dated (z : Z) (x : comment_t) : bool :=
  let '(_, c, _, _) := x in (date c =? z)%Z.

(** The order of the sort: by key. *)
Definition key_le {A} (key : A -> Z) (a b : A) : Prop := (key a <= key b)%Z.

(** The text of one entry of the posts digest; none for a post without
    text, on which the highlighter raises. *)
Definition post_entry `{Runtime} (self : TelegramChecker) (x : post_t) : option string :=
  let '(e, post, group_username) := x in
  match text post with
  | None => None
  | Some t =>
      Some (Str.concat (post_writes e post group_username
                                    (highlight_keywords t (keywords self))))
  end.

Definition comment_entry `{Runtime} (self : TelegramChecker) (x : comment_t)
  : option string :=
  let '(e, comment, group_username, post) := x in
  match text comment with
  | None => None
  | Some t =>
      Some (Str.concat (comment_writes e comment group_username post
                                       (highlight_keywords t (keywords self))))
  end.

(** The entries written for a list of items, up to the first item without
    an entry, and whether all of them were written. *)
Fixpoint digest {A} (entry : A -> option string) (l : list A) : string * bool :=
  match l with
  | [] => (EmptyString, true)
  | x :: l' =>
      match entry x with
      | None => (EmptyString, false)
      | Some s => let (d, ok) := digest entry l' in (s +:+ d, ok)
      end
  end.

Definition saved_posts_msg (n : nat) : string :=
  "Saved " +:+ Str.of_Z (Z.of_nat n) +:+ " posts with keywords in 'saved_posts.md'.".
Definition saved_comments_msg (n : nat) : string :=
  "Saved " +:+ Str.of_Z (Z.of_nat n) +:+ " comments with keywords in 'saved_comments.md'.".

(** The world after a digest writer: the list object replaced, the file
    holding [content], the console extended when the writer completed. *)
Definition after_save (w : world) (l : loc) (o : pylist) (path content : string)
    (ok : bool) (msg : string) : result unit * world :=
  (if ok then Ok tt else Raised TypeError,
   {| heap := <[l := o]> (heap w);
      files := <[path := content]> (files w);
      stdout := if ok then (stdout w ++ [msg])%list else stdout w;
      clock := clock w |}).

(** The entries a writer emits for [l]: up to the first item without one. *)
Fixpoint digest_entries {A} (entry : A -> option string) (l : list A) : list string :=
  match l with
  | [] => []
  | x :: l' =>
      match entry x with
      | None => []
      | Some s => s :: digest_entries entry l'
      end
  end.

(** One entry of a digest, by its three labels and four fields. *)
Definition entry_layout (date_label body_label link_label : string)
    (group ts body link : string) : string :=
  "### Group: " +:+ group +:+ nl +:+
  date_label +:+ " " +:+ ts +:+ " (Kyiv)" +:+ nl +:+ nl +:+
  body_label +:+ nl +:+ nl +:+
  body +:+ nl +:+ nl +:+
  "[" +:+ link_label +:+ "](" +:+ link +:+ ")" +:+ nl +:+ nl +:+
  "---" +:+ nl +:+ nl.

(** ** Links *)

(** The entity exposes the public username [u]. *)
Definition has_public_username (e : entity) (u : string) : Prop :=
  username e = Attr (Some u) /\ u <> EmptyString.

(** The entity exposes none: the attribute is missing, [None] or empty. *)
Definition no_public_username (e : entity) : Prop :=
  username e = NoAttr \/ username e = Attr None \/ username e = Attr (Some EmptyString).

(** The number a decimal numeral stands for. *)
Definition decimal_value (s : string) : option Z :=
  option_map Z.of_int (NilZero.int_of_string s).

(** [link] is the link of a post of [e]: the URL of the post under the
    public username, with the post id in decimal, or the placeholder. *)
Definition link_of_post (e : entity) (post : message) (link : string) : Prop :=
  (exists u pid, has_public_username e u /\ decimal_value pid = Some (id post) /\
                 link = "https://t.me/" +:+ u +:+ "/" +:+ pid) \/
  (no_public_username e /\ link = "No public link").

(** [link] is the link of a comment: the URL of its post with the comment
    id, in decimal, as the [comment] parameter, or the placeholder. *)
Definition link_of_comment (e : entity) (post comment : message) (link : string) : Prop :=
  (exists u pid cid,
      has_public_username e u /\ decimal_value pid = Some (id post) /\
      decimal_value cid = Some (id comment) /\
      link = "https://t.me/" +:+ u +:+ "/" +:+ pid +:+ "?comment=" +:+ cid) \/
  (no_public_username e /\ link = "No public link").

(** ** Fetching *)

(** A post that is not a reply. *)
Definition top_level (x : post_t) : Prop := reply_to_msg_id (snd (fst x)) = None.

(** ** Fetching, by list functions *)

(** [msg] is older than the threshold. *)
Definition too_old `{Runtime} (thr : datetime) (msg : message) : bool :=
  dt_ltb (astimezone (date msg)) thr.

(** The messages of a stream before the first one that is too old. *)
Fixpoint recent `{Runtime} (thr : datetime) (msgs : list message) : list message :=
  match msgs with
  | [] => []
  | msg :: msgs' => if too_old thr msg then [] else msg :: recent thr msgs'
  end.

Definition is_top_level (msg : message) : bool :=
  match reply_to_msg_id msg with
  | None => true
  | Some _ => false
  end.

(** The posts one group contributes: its recent top-level messages, in
    the order of delivery. *)
Definition group_posts `{Runtime} (thr : datetime) (e : entity) (g : string)
    (msgs : list message) : list post_t :=
  map (fun msg => (e, msg, g)) (List.filter is_top_level (recent thr msgs)).

Definition resolvable (c : client) (g : string) : bool :=
  match get_entity c g with
  | Ok _ => true
  | Raised _ => false
  end.

(** The stream of the group reaches the cutoff or its end without
    raising; so does that of a group that cannot be resolved, which is
    never opened. *)
Definition stream_passes `{Runtime} (c : client) (thr : datetime) (g : string) : bool :=
  match get_entity c g with
  | Raised _ => true
  | Ok e =>
      existsb (too_old thr) (fst (iter_messages c e None)) ||
      match snd (iter_messages c e None) with
      | None => true
      | Some _ => false
      end
  end.

Definition posts_of_group `{Runtime} (c : client) (thr : datetime) (g : string)
  : list post_t :=
  match get_entity c g with
  | Raised _ => []
  | Ok e => group_posts thr e g (fst (iter_messages c e None))
  end.

(** The replies one post contributes to [fetch_comments]. *)
Definition replies_of (c : client) (x : post_t) : list comment_t :=
  let '(e, post, g) := x in
  match replies post with
  | None => []
  | Some _ => map (fun reply => (e, reply, g, post)) (fst (iter_messages c e (Some (id post))))
  end.

(** The reply stream of the post ends normally or with
    [MsgIdInvalidError]; a post without replies has no stream. *)
Definition reply_stream_passes (c : client) (x : post_t) : bool :=
  let '(e, post, g) := x in
  match replies post with
  | None => true
  | Some _ =>
      match snd (iter_messages c e (Some (id post))) with
      | None => true
      | Some (MsgIdInvalidError _) => true
      | Some _ => false
      end
  end.

(** [w'] is [w] with lines added to the console and nothing else changed. *)
Definition only_prints (w w' : world) : Prop :=
  heap w' = heap w /\ files w' = files w /\ clock w' = clock w /\
  exists lines, stdout w' = (stdout w ++ lines)%list.

(** * Example data

    A checker for the group "a" with the keyword "urgent", on the ASCII
    runtime. *)

Definition ex_checker : TelegramChecker :=
  {| api_id := 0; api_hash := EmptyString; groups := ["a"; "b"];
     keywords := ["urgent"]; time_filter := 0 |}.

Definition ex_entity : entity := {| peer_id := 1; username := Attr (Some "a") |}.

(** Instants of the day of [ex_now], by the hour (UTC). *)
Definition ex_hour (h : Z) : Z := (739000 * DAY_US + h * HOUR_US)%Z.

Definition ex_now : datetime := {| ordinal := 739000; micros := (15 * HOUR_US)%Z |}.

Definition ex_post1 : message :=
  {| id := 1; text := Some "Urgent issue"; date := ex_hour 9;
     reply_to_msg_id := None; replies := Some 1%Z |}.
Definition ex_post2 : message :=
  {| id := 2; text := Some "nothing here"; date := ex_hour 8;
     reply_to_msg_id := None; replies := Some 1%Z |}.
Definition ex_old : message :=
  {| id := 0; text := Some "urgent, yesterday"; date := ex_hour (-20);
     reply_to_msg_id := None; replies := None |}.
Definition ex_reply1 : message :=
  {| id := 10; text := Some "urgent fix"; date := ex_hour 10;
     reply_to_msg_id := Some 1%Z; replies := None |}.
Definition ex_reply2 : message :=
  {| id := 11; text := Some "URGENT too"; date := ex_hour 9;
     reply_to_msg_id := Some 2%Z; replies := None |}.

(** The stream of group "a" delivers a reply among the posts; group "b"
    cannot be resolved; the reply stream of post 1 yields one reply and
    then fails. *)
Definition ex_client : client :=
  {| get_entity := fun g => if String.eqb g "a" then Ok ex_entity
                            else Raised (OtherError "no such group");
     iter_messages := fun e reply_to =>
       match reply_to with
       | None => ([ex_reply1; ex_post1; ex_post2; ex_old], None)
       | Some 1%Z => ([ex_reply1], Some (MsgIdInvalidError "MSG_ID_INVALID"))
       | Some _ => ([ex_reply2], None)
       end |}.

Definition ex_posts : list post_t :=
  [(ex_entity, ex_post1, "a"); (ex_entity, ex_post2, "a")].
Definition ex_comments : list comment_t :=
  [(ex_entity, ex_reply1, "a", ex_post1); (ex_entity, ex_reply2, "a", ex_post2)].

Definition ex_world : world :=
  {| heap := {[ 1%positive := Posts ex_posts; 2%positive := Comments ex_comments ]};
     files := ∅; stdout := []; clock := ex_now |}.

(** A service whose streams fail: the stream of group "a" raises before
    any message is too old, and the reply stream of post 1 raises an
    exception other than [MsgIdInvalidError]. *)
Definition ex_failing_client : client :=
  {| get_entity := fun g => Ok ex_entity;
     iter_messages := fun e reply_to =>
       match reply_to with
       | None => ([ex_post1], Some (OtherError "flood wait"))
       | Some _ => ([ex_reply1], Some (OtherError "flood wait"))
       end |}.

Definition ex_no_text : message :=
  {| id := 3; text := None; date := (ex_hour 8 + 1)%Z;
     reply_to_msg_id := None; replies := None |}.

(** A list with a post without text, dated between the two others. *)
Definition ex_posts_no_text : list post_t :=
  [(ex_entity, ex_post1, "a"); (ex_entity, ex_no_text, "a"); (ex_entity, ex_post2, "a")].

Definition ex_world_no_text : world :=
  {| heap := {[ 1%positive := Posts ex_posts_no_text ]};
     files := ∅; stdout := []; clock := ex_now |}.

(** A group without a public username, and a store with one post and one
    comment of each kind of group. *)
Definition ex_private_entity : entity := {| peer_id := 2; username := NoAttr |}.

Definition ex_world_links : world :=
  {| heap := {[ 1%positive := Posts [(ex_entity, ex_post1, "a");
                                     (ex_private_entity, ex_post2, "-1001234")];
                2%positive := Comments [(ex_entity, ex_reply1, "a", ex_post1);
                                        (ex_private_entity, ex_reply2, "-1001234", ex_post2)] ]};
     files := ∅; stdout := []; clock := ex_now |}.


(** * Properties *)

(** ** Strings *)

Module StrFacts.

Lemma app_nil_r s : s +:+ EmptyString = s.
Proof. induction s as [|c s IH]; simpl; [reflexivity | now rewrite IH]. Qed.

Lemma app_assoc s1 s2 s3 : (s1 +:+ s2) +:+ s3 = s1 +:+ (s2 +:+ s3).
Proof. induction s1 as [|c s1 IH]; simpl; [reflexivity | now rewrite IH]. Qed.

Lemma length_app s1 s2 :
  String.length (s1 +:+ s2) = (String.length s1 + String.length s2)%nat.
Proof. induction s1 as [|c s1 IH]; simpl; [reflexivity | now rewrite IH]. Qed.

Lemma length_map f s : String.length (Str.map f s) = String.length s.
Proof. induction s as [|c s IH]; simpl; [reflexivity | now rewrite IH]. Qed.

Lemma length_zero s : String.length s = 0%nat -> s = EmptyString.
Proof. destruct s; simpl; [reflexivity | discriminate]. Qed.

Lemma is_empty_true s : Str.is_empty s = true <-> s = EmptyString.
Proof. destruct s; simpl; split; congruence. Qed.

Lemma is_empty_false s : Str.is_empty s = false <-> s <> EmptyString.
Proof. destruct s; simpl; split; congruence. Qed.

Lemma map_empty f s : Str.map f s = EmptyString <-> s = EmptyString.
Proof. destruct s; simpl; split; congruence. Qed.

Lemma app_inv_head s t1 t2 : s +:+ t1 = s +:+ t2 -> t1 = t2.
Proof. induction s as [|c s IH]; simpl; [easy | intros [= E]; auto]. Qed.

Lemma concat_app l1 l2 : Str.concat (l1 ++ l2) = Str.concat l1 +:+ Str.concat l2.
Proof.
  induction l1 as [|x l1 IH]; simpl; [reflexivity |].
  now rewrite IH, app_assoc.
Qed.

Lemma starts_with_spec k t :
  Str.starts_with k t = true <-> exists post, t = k +:+ post.
Proof.
  revert t; induction k as [|c k IH]; intros t; simpl.
  - split; [intros _; now exists t | reflexivity].
  - destruct t as [|d t].
    + split; [discriminate | intros [post E]; discriminate].
    + rewrite andb_true_iff, Ascii.eqb_eq, IH. split.
      * intros [-> [post ->]]. now exists post.
      * intros [post [= -> ->]]. split; [reflexivity | now exists post].
Qed.

(** [k in t] holds exactly when [t] splits around a copy of [k]. *)
Lemma contains_spec k t :
  Str.contains k t = true <-> exists pre post, t = pre +:+ k +:+ post.
Proof.
  induction t as [|d t IH].
  - simpl. rewrite orb_false_r, starts_with_spec. split.
    + intros [post E]. now exists EmptyString, post.
    + intros [pre [post E]]. destruct pre; simpl in E.
      * now exists post.
      * discriminate.
  - cbn [Str.contains]. rewrite orb_true_iff, starts_with_spec, IH. split.
    + intros [[post E] | [pre [post E]]].
      * now exists EmptyString, post.
      * exists (String d pre), post. simpl. now rewrite E.
    + intros [pre [post E]]. destruct pre as [|c pre]; simpl in E.
      * left. now exists post.
      * right. injection E as -> ->. now exists pre, post.
Qed.

Lemma contains_empty_r k : Str.contains k EmptyString = true -> k = EmptyString.
Proof. destruct k; simpl; [reflexivity | discriminate]. Qed.

Lemma map_app f a b : Str.map f (a +:+ b) = Str.map f a +:+ Str.map f b.
Proof. induction a as [|c a IH]; simpl; [reflexivity | now rewrite IH]. Qed.

Lemma map_app_inv f k a b :
  Str.map f k = a +:+ b ->
  exists ka kb, k = ka +:+ kb /\ Str.map f ka = a /\ Str.map f kb = b.
Proof.
  revert k; induction a as [|c a IH]; intros k E; simpl in *.
  - exists EmptyString, k. repeat split. assumption.
  - destruct k as [|d k]; simpl in *; [discriminate |].
    injection E as <- E. destruct (IH k E) as [ka [kb [-> [<- <-]]]].
    exists (String d ka), kb. repeat split.
Qed.

(** Two splittings of one string: the shorter prefix is a prefix of the
    longer one. *)
Lemma app_split a b c d :
  a +:+ b = c +:+ d -> (String.length a <= String.length c)%nat ->
  exists x, c = a +:+ x /\ b = x +:+ d.
Proof.
  revert c; induction a as [|h a IH]; intros c E Hlen; simpl in *.
  - exists c. split; [reflexivity | assumption].
  - destruct c as [|h' c]; simpl in *; [lia |].
    injection E as <- E. destruct (IH c E) as [x [-> ->]]; [lia |].
    exists x. split; reflexivity.
Qed.

End StrFacts.

(** ** Keyword filter *)

Section KeywordFilter.
Context `{Runtime}.

Lemma matches_spec txt kws : matches txt kws = true <-> retained txt kws.
Proof.
  unfold matches, retained, occurs_ci. destruct txt as [t|].
  - rewrite andb_true_iff, negb_true_iff, StrFacts.is_empty_false, existsb_exists.
    split.
    + intros [Hne [k [Hin Hk]]]. exists t. repeat split; try assumption.
      exists k. split; [assumption | now apply StrFacts.contains_spec].
    + intros [t' [[= <-] [Hne [k [Hin Hk]]]]]. split; [assumption |].
      exists k. split; [assumption | now apply StrFacts.contains_spec].
  - split; [discriminate | intros [t [E _]]; discriminate].
Qed.

Lemma str_lower_empty : str_lower EmptyString = EmptyString.
Proof. unfold str_lower. now apply lower_empty. Qed.

Lemma str_lower_is_empty s : Str.is_empty (str_lower s) = Str.is_empty s.
Proof.
  unfold str_lower. destruct s as [|ch s].
  - assert (lower EmptyString = EmptyString) as -> by now apply lower_empty.
    reflexivity.
  - destruct (lower (String ch s)) eqn:E; [| reflexivity].
    destruct (lower_empty (String ch s)) as [Hl _]. specialize (Hl E). discriminate.
Qed.

Lemma matches_None kws : matches None kws = false.
Proof. reflexivity. Qed.

(** With keywords that are not empty, the test for an empty text can be
    left out of the condition. *)
Lemma matches_nonempty_keywords txt kws :
  (forall keyword, In keyword kws -> keyword <> EmptyString) ->
  matches txt kws = true <-> present_with_keyword txt kws.
Proof.
  intros Hne. rewrite matches_spec. unfold retained, present_with_keyword. split.
  - intros [t [Et [_ Hk]]]. eauto.
  - intros [t [Et [k [Hin Hk]]]]. exists t. repeat split; eauto.
    intros ->. destruct Hk as [pre [post Hk]]. rewrite str_lower_empty in Hk.
    destruct pre; simpl in Hk; [| discriminate].
    apply (Hne k Hin), lower_empty. fold (str_lower k).
    destruct (str_lower k); [reflexivity | discriminate].
Qed.

(** The filter, for any keyword list: a text is kept exactly when it is
    present, not empty, and contains one of the keywords with case
    ignored; the post filter and the comment filter keep exactly the
    items of their input whose text meets this condition. *)
Lemma keyword_filter_retains :
  forall (self : TelegramChecker),
    (forall txt, matches txt (keywords self) = true <-> retained txt (keywords self)) /\
    matches None (keywords self) = false /\
    (forall posts x,
        In x (filter_posts_by_keywords self posts) <->
        In x posts /\ retained (text (snd (fst x))) (keywords self)) /\
    (forall comments x,
        In x (filter_comments self comments) <->
        In x comments /\ retained (text (snd (fst (fst x)))) (keywords self)).
Proof.
  intros self. split; [intros; apply matches_spec |].
  split; [reflexivity |]. split.
  - intros posts [[e p] g]. unfold filter_posts_by_keywords.
    rewrite filter_In, matches_spec. reflexivity.
  - intros comments [[[e r] g] p]. unfold filter_comments.
    rewrite filter_In, matches_spec. reflexivity.
Qed.

(** C1: with keywords that are not empty strings, as the configuration
    has them, a message is kept by the keyword filter exactly when its
    text is present and at least one keyword occurs in it with case
    ignored; a message without text is never kept.  The post filter and
    the comment filter keep exactly the items of their input that meet
    this condition. *)
Theorem keyword_filter_present_text :
  forall (self : TelegramChecker),
    (forall keyword, In keyword (keywords self) -> keyword <> EmptyString) ->
    (forall txt, matches txt (keywords self) = true <->
                 present_with_keyword txt (keywords self)) /\
    (forall kws, matches None kws = false) /\
    (forall posts e post g,
        In (e, post, g) (filter_posts_by_keywords self posts) <->
        In (e, post, g) posts /\ present_with_keyword (text post) (keywords self)) /\
    (forall comments e reply g post,
        In (e, reply, g, post) (filter_comments self comments) <->
        In (e, reply, g, post) comments /\
        present_with_keyword (text reply) (keywords self)).
Proof.
  intros self Hne. split; [intros; now apply matches_nonempty_keywords |].
  split; [reflexivity |]. split.
  - intros posts e post g. unfold filter_posts_by_keywords.
    rewrite filter_In, matches_nonempty_keywords by assumption. reflexivity.
  - intros comments e reply g post. unfold filter_comments.
    rewrite filter_In, matches_nonempty_keywords by assumption. reflexivity.
Qed.

End KeywordFilter.

(** ** Highlighter *)

Section Highlighter.
Context `{Runtime}.

Lemma match_literal_spec k t m r :
  match_literal k t = Some (m, r) <-> t = m +:+ r /\ ci_eq k m.
Proof.
  unfold ci_eq. revert t m r; induction k as [|c k IH]; intros t m r; simpl.
  - split.
    + intros [= <- <-]. split; reflexivity.
    + intros [-> E]. symmetry in E. apply StrFacts.map_empty in E. now subst.
  - destruct t as [|d t].
    + split; [discriminate |]. intros [E1 E2].
      destruct m; simpl in *; discriminate.
    + destruct (Ascii.eqb (fold c) (fold d)) eqn:Ecd.
      * apply Ascii.eqb_eq in Ecd.
        destruct (match_literal k t) as [[m' r']|] eqn:Em.
        -- apply IH in Em as [-> Em]. split.
           ++ intros [= <- <-]. simpl. split; [reflexivity | congruence].
           ++ intros [E1 E2]. destruct m as [|d' m]; simpl in *; [discriminate |].
              injection E1 as <- E1. injection E2 as _ E2.
              assert (Some (m', r') = Some (m, r)) as [= -> ->]; [| reflexivity].
              rewrite <- (proj2 (IH (m' +:+ r') m' r') (conj eq_refl Em)).
              apply IH. split; assumption.
        -- split; [discriminate |]. intros [E1 E2].
           destruct m as [|d' m]; simpl in *; [discriminate |].
           injection E1 as <- E1. injection E2 as _ E2.
           rewrite (proj2 (IH t m r) (conj E1 E2)) in Em. discriminate.
      * split; [discriminate |]. intros [E1 E2].
        destruct m as [|d' m]; simpl in *; [discriminate |].
        injection E1 as <- E1. injection E2 as E2 _.
        rewrite E2, Ascii.eqb_refl in Ecd. discriminate.
Qed.

Lemma ci_eq_length k m : ci_eq k m -> String.length k = String.length m.
Proof.
  unfold ci_eq. intros E.
  rewrite <- (StrFacts.length_map fold k), E. apply StrFacts.length_map.
Qed.

Lemma ci_eq_empty k m : ci_eq k m -> (k = EmptyString <-> m = EmptyString).
Proof.
  intros E. apply ci_eq_length in E. destruct k, m; simpl in *; try discriminate;
    split; congruence.
Qed.

Lemma match_alts_sound ma alts t m r :
  match_alts ma alts t = Some (m, r) ->
  (exists k, In k alts /\ match_literal k t = Some (m, r)) /\
  (ma = true -> m <> EmptyString).
Proof.
  induction alts as [|k alts IH]; simpl; [discriminate |].
  destruct (match_literal k t) as [[m' r']|] eqn:Ek.
  - destruct (ma && Str.is_empty m') eqn:Eg.
    + intros E. destruct (IH E) as [[k' [Hin Hk']] Hma]. split; [eauto | assumption].
    + intros [= -> ->]. split; [eauto |].
      intros ->. simpl in Eg. now apply StrFacts.is_empty_false.
  - intros E. destruct (IH E) as [[k' [Hin Hk']] Hma]. split; [eauto | assumption].
Qed.

Lemma match_alts_complete ma alts t k m r :
  In k alts -> match_literal k t = Some (m, r) ->
  ma = false \/ m <> EmptyString ->
  exists m' r', match_alts ma alts t = Some (m', r').
Proof.
  induction alts as [|k' alts IH]; simpl; [easy |].
  intros [-> | Hin] Hk Hok.
  - rewrite Hk. destruct (ma && Str.is_empty m) eqn:Eg; [| eauto].
    apply andb_true_iff in Eg as [-> Em]. apply StrFacts.is_empty_true in Em.
    destruct Hok; congruence.
  - destruct (match_literal k' t) as [[m' r']|]; [| eauto].
    destruct (ma && Str.is_empty m'); eauto.
Qed.

Lemma search_none alts ma t :
  search alts ma t = None ->
  forall p1 p2, t = p1 +:+ p2 ->
                match_alts (ma && Str.is_empty p1) alts p2 = None.
Proof.
  revert ma; induction t as [|c t IH]; intros ma; simpl.
  - destruct (match_alts ma alts EmptyString) as [[m r]|] eqn:E; [discriminate |].
    intros _ p1 p2 Et. destruct p1; simpl in Et; [| discriminate].
    subst p2. simpl. now rewrite andb_true_r.
  - destruct (match_alts ma alts (String c t)) as [[m r]|] eqn:E; [discriminate |].
    destruct (search alts false t) as [[[pre m] r]|] eqn:Es; [discriminate |].
    intros _ p1 p2 Et. destruct p1 as [|c' p1]; simpl in Et.
    + subst p2. simpl. now rewrite andb_true_r.
    + injection Et as <- Et. simpl. rewrite andb_false_r.
      apply (IH false Es p1 p2 Et).
Qed.

Lemma search_some alts ma t pre m r :
  search alts ma t = Some (pre, m, r) ->
  t = pre +:+ m +:+ r /\
  (exists k, In k alts /\ ci_eq k m) /\
  (pre = EmptyString -> ma = true -> m <> EmptyString) /\
  (forall p1 p2, pre = p1 +:+ p2 -> p2 <> EmptyString ->
                 match_alts (ma && Str.is_empty p1) alts (p2 +:+ m +:+ r) = None).
Proof.
  revert ma pre; induction t as [|c t IH]; intros ma pre; simpl.
  - destruct (match_alts ma alts EmptyString) as [[m' r']|] eqn:E; [| discriminate].
    intros [= <- <- <-]. apply match_alts_sound in E as [[k [Hin Hk]] Hma].
    apply match_literal_spec in Hk as [Et Hk].
    repeat split; eauto.
    intros p1 p2 Ep. destruct p1; simpl in Ep; [| discriminate]. congruence.
  - destruct (match_alts ma alts (String c t)) as [[m' r']|] eqn:E.
    + intros [= <- <- <-]. apply match_alts_sound in E as [[k [Hin Hk]] Hma].
      apply match_literal_spec in Hk as [Et Hk].
      repeat split; eauto.
      intros p1 p2 Ep. destruct p1; simpl in Ep; [| discriminate]. congruence.
    + destruct (search alts false t) as [[[pre' m'] r']|] eqn:Es; [| discriminate].
      intros [= <- <- <-]. destruct (IH false pre' Es) as [Et [Hk [_ Hno]]].
      repeat split; try assumption.
      * simpl. now rewrite Et.
      * discriminate.
      * intros p1 p2 Ep Hne. destruct p1 as [|c' p1]; simpl in Ep.
        -- subst p2. simpl. rewrite andb_true_r, <- Et. exact E.
        -- injection Ep as <- Ep. simpl. rewrite andb_false_r.
           apply (Hno p1 p2 Ep Hne).
Qed.

(** Rendering the segments with the identity gives the text back: the
    gaps and the matched texts are the text, in order and unchanged. *)
Lemma scan_raw fuel alts ma t : raw (scan fuel alts ma t) = t.
Proof.
  unfold raw. revert ma t; induction fuel as [|fuel IH]; intros ma t; simpl.
  - apply StrFacts.app_nil_r.
  - destruct (search alts ma t) as [[[pre m] r]|] eqn:Es; simpl.
    + rewrite IH. now apply search_some in Es as [-> _].
    + apply StrFacts.app_nil_r.
Qed.

Lemma scan_sound fuel alts : forall ma t off s m,
  In (s, m) (spans off (scan fuel alts ma t)) ->
  (exists k, In k alts /\ ci_eq k m) /\
  exists pre post, t = pre +:+ m +:+ post /\ (off + String.length pre)%nat = s.
Proof.
  induction fuel as [|fuel IH]; intros ma t off s m; simpl; [easy |].
  destruct (search alts ma t) as [[[pre0 m0] r]|] eqn:Es; simpl; [| easy].
  apply search_some in Es as [Et [Hk _]].
  intros [[= <- <-] | Hin].
  - split; [assumption |]. now exists pre0, r.
  - apply IH in Hin as [Hk' [pre [post [Er Hs]]]]. split; [assumption |].
    exists (pre0 +:+ m0 +:+ pre), post. split.
    + rewrite Et, Er. now rewrite !StrFacts.app_assoc.
    + rewrite !StrFacts.length_app. lia.
Qed.

(** A keyword standing at the start of [t] is found by the alternation,
    unless it is the empty match that [must_advance] rejects. *)
Lemma occurrence_found ma alts k m post :
  In k alts -> ci_eq k m -> (ma = true -> m = EmptyString -> False) ->
  match_alts ma alts (m +:+ post) <> None.
Proof.
  intros Hin Hk Hok.
  assert (match_literal k (m +:+ post) = Some (m, post)) as Hl
      by now apply match_literal_spec.
  destruct (match_alts_complete ma alts _ k m post Hin Hl) as [m' [r' E]].
  - destruct ma; [right | left; reflexivity]. intros ->. now apply Hok.
  - congruence.
Qed.

(** Every occurrence of a keyword starts inside a match of the scan, or
    at an empty match when the occurrence is empty itself.  [fuel]
    exceeds the number of searches the scan can make. *)
Lemma scan_complete alts : forall fuel (ma : bool) t off,
  (2 * String.length t + (if ma then 0 else 1) < fuel)%nat ->
  forall k pre m post,
    In k alts -> t = pre +:+ m +:+ post -> ci_eq k m ->
    (ma = true -> pre = EmptyString -> m = EmptyString -> False) ->
    exists s m',
      In (s, m') (spans off (scan fuel alts ma t)) /\
      (s <= off + String.length pre)%nat /\
      ((off + String.length pre < s + String.length m')%nat \/
       (m = EmptyString /\ m' = EmptyString /\ s = (off + String.length pre)%nat)).
Proof.
  induction fuel as [|fuel IH]; intros ma t off Hfuel k pre m post Hin Et Hk Hok;
    [lia |].
  simpl. destruct (search alts ma t) as [[[pre0 m0] r]|] eqn:Es.
  - apply search_some in Es as [Et0 [_ [Hadv Hno]]]. simpl.
    destruct (Nat.lt_ge_cases (String.length pre) (String.length pre0)) as [Hlt | Hge].
    + (* the occurrence starts before the match: the search would have
         stopped there *)
      exfalso. rewrite Et in Et0.
      destruct (StrFacts.app_split _ _ _ _ Et0) as [x [Ex Ey]]; [lia |].
      assert (x <> EmptyString) as Hx.
      { intros ->. rewrite Ex, StrFacts.app_nil_r in Hlt. lia. }
      specialize (Hno pre x Ex Hx). rewrite <- Ey in Hno.
      revert Hno. apply (occurrence_found _ _ k); try assumption.
      intros Hma. apply andb_true_iff in Hma as [-> Hpre].
      apply StrFacts.is_empty_true in Hpre. now apply Hok.
    + destruct (Nat.lt_ge_cases (String.length pre)
                  (String.length pre0 + String.length m0)) as [Hin0 | Hpast].
      * exists (off + String.length pre0)%nat, m0.
        split; [now left |]. split; lia.
      * destruct (String.length pre =? String.length pre0)%nat eqn:Esame;
          [apply Nat.eqb_eq in Esame | apply Nat.eqb_neq in Esame].
        -- assert (m0 = EmptyString) as -> by (apply StrFacts.length_zero; lia).
           destruct m as [|c m].
           ++ exists (off + String.length pre0)%nat, EmptyString.
              split; [now left |]. split; [lia |]. right. repeat split. lia.
           ++ (* a non-empty occurrence right after an empty match *)
              rewrite Et in Et0. symmetry in Et0.
              destruct (StrFacts.app_split pre0 _ pre _ Et0) as [x [Ex Ey]]; [lia |].
              assert (x = EmptyString) as ->.
              { apply StrFacts.length_zero. rewrite Ex, StrFacts.length_app in Esame. lia. }
              simpl in Ey. subst r.
              destruct (IH true (String c m +:+ post)
                          (off + String.length pre0 + 0)%nat) with
                (k := k) (pre := EmptyString) (m := String c m) (post := post)
                as [s [m' [Hs [Hle Hcov]]]]; try assumption; try reflexivity;
                try discriminate.
              { assert (String.length t =
                        String.length pre + String.length (String c m +:+ post))%nat
                  by (rewrite Et, StrFacts.length_app; reflexivity).
                destruct pre0 as [|c0 pre0]; simpl in *; [| destruct ma; lia].
                destruct ma; [| lia]. now destruct Hadv. }
              exists s, m'. split; [now right |]. simpl in *. split; [lia |].
              destruct Hcov as [Hcov | [Hcov _]]; [left; lia | discriminate].
        -- rewrite Et in Et0. symmetry in Et0.
           rewrite <- StrFacts.app_assoc in Et0.
           destruct (StrFacts.app_split (pre0 +:+ m0) r pre _ Et0) as [x [Ex Ey]];
             [rewrite StrFacts.length_app; lia |].
           assert (String.length t =
                   String.length pre0 + String.length m0 + String.length r)%nat as Hlen.
           { rewrite Et, <- Et0, !StrFacts.length_app. lia. }
           destruct (IH (Str.is_empty m0) r
                       (off + String.length pre0 + String.length m0)%nat) with
             (k := k) (pre := x) (m := m) (post := post)
             as [s [m' [Hs [Hle Hcov]]]]; try assumption.
           { destruct m0 as [|c0 m0]; simpl in *; [| destruct ma; lia].
             destruct pre0 as [|c0 pre0]; simpl in *; [| destruct ma; lia].
             destruct ma; [| lia]. now destruct Hadv. }
           { intros Hm0 -> _. apply StrFacts.is_empty_true in Hm0. subst m0.
             rewrite Ex, StrFacts.app_nil_r, StrFacts.app_nil_r in Esame. lia. }
           assert (String.length pre =
                   String.length pre0 + String.length m0 + String.length x)%nat as Hp.
           { rewrite Ex, !StrFacts.length_app. lia. }
           exists s, m'. split; [now right |]. split; [lia |].
           destruct Hcov as [Hcov | [-> [-> ->]]]; [left; lia |].
           right. repeat split. lia.
  - exfalso. pose proof (search_none _ _ _ Es pre (m +:+ post) Et) as Hno.
    revert Hno. apply (occurrence_found _ _ k); try assumption.
    intros Hma. apply andb_true_iff in Hma as [-> Hpre].
    apply StrFacts.is_empty_true in Hpre. now apply Hok.
Qed.



Lemma branches_nonempty K : K <> [] -> branches K = K.
Proof. destruct K; [congruence | reflexivity]. Qed.


(** *** Keyword order *)

Lemma prefix_freeb_spec K k1 k2 m r :
  prefix_freeb K = true -> In k1 K -> In k2 K ->
  match_literal k1 k2 = Some (m, r) -> String.length k1 = String.length k2.
Proof.
  unfold prefix_freeb, ci_prefixb. intros HK H1 H2 Hm.
  rewrite List.forallb_forall in HK. specialize (HK k1 H1).
  rewrite List.forallb_forall in HK. specialize (HK k2 H2).
  rewrite Hm in HK. simpl in HK. now apply Nat.eqb_eq.
Qed.

Lemma literal_shorter K k k' t m r m' r' :
  prefix_freeb K = true -> In k K -> In k' K ->
  match_literal k t = Some (m, r) -> match_literal k' t = Some (m', r') ->
  (String.length m <= String.length m')%nat -> m = m' /\ r = r'.
Proof.
  intros HK Hin Hin' Hk Hk' Hlen.
  apply match_literal_spec in Hk as [Et Hk].
  apply match_literal_spec in Hk' as [Et' Hk'].
  rewrite Et in Et'. destruct (StrFacts.app_split _ _ _ _ Et' Hlen) as [x [Ex Er]].
  pose proof Hk' as Hsplit. unfold ci_eq in Hsplit.
  rewrite Ex, StrFacts.map_app in Hsplit.
  apply StrFacts.map_app_inv in Hsplit as [ka [kb [Ek' [Eka Ekb]]]].
  assert (match_literal k k' = Some (ka, kb)) as Hpre.
  { apply match_literal_spec. split; [assumption |]. unfold ci_eq in *. congruence. }
  pose proof (prefix_freeb_spec K k k' ka kb HK Hin Hin' Hpre) as Hsame.
  apply ci_eq_length in Hk, Hk'.
  assert (x = EmptyString) as ->.
  { apply StrFacts.length_zero. rewrite Ex, StrFacts.length_app in Hk'. lia. }
  rewrite StrFacts.app_nil_r in Ex. simpl in Er. split; congruence.
Qed.

Lemma literal_unique K k k' t m r m' r' :
  prefix_freeb K = true -> In k K -> In k' K ->
  match_literal k t = Some (m, r) -> match_literal k' t = Some (m', r') ->
  m = m' /\ r = r'.
Proof.
  intros HK Hin Hin' Hk Hk'.
  destruct (Nat.le_ge_cases (String.length m) (String.length m')) as [Hle | Hge].
  - apply (literal_shorter K k k' t m r m' r'); assumption.
  - destruct (literal_shorter K k' k t m' r' m r) as [-> ->]; auto.
Qed.

Lemma match_alts_perm K1 K2 ma t :
  Permutation K1 K2 -> prefix_freeb K1 = true ->
  match_alts ma K1 t = match_alts ma K2 t.
Proof.
  intros HP HK.
  destruct (match_alts ma K1 t) as [[m r]|] eqn:E1;
    destruct (match_alts ma K2 t) as [[m' r']|] eqn:E2; try reflexivity.
  - apply match_alts_sound in E1 as [[k [Hin Hk]] _].
    apply match_alts_sound in E2 as [[k' [Hin' Hk']] _].
    apply (Permutation_in _ (Permutation_sym HP)) in Hin'.
    destruct (literal_unique K1 k k' t m r m' r') as [-> ->]; auto.
  - apply match_alts_sound in E1 as [[k [Hin Hk]] Hma].
    apply (Permutation_in _ HP) in Hin.
    destruct (match_alts_complete ma K2 t k m r Hin Hk) as [m' [r' E]];
      [| congruence].
    destruct ma; [right; now apply Hma | now left].
  - apply match_alts_sound in E2 as [[k [Hin Hk]] Hma].
    apply (Permutation_in _ (Permutation_sym HP)) in Hin.
    destruct (match_alts_complete ma K1 t k m' r' Hin Hk) as [m [r E]];
      [| congruence].
    destruct ma; [right; now apply Hma | now left].
Qed.

Lemma search_perm K1 K2 ma t :
  Permutation K1 K2 -> prefix_freeb K1 = true ->
  search K1 ma t = search K2 ma t.
Proof.
  intros HP HK. revert ma; induction t as [|c t IH]; intros ma; simpl;
    rewrite (match_alts_perm K1 K2) by assumption; [reflexivity |].
  now rewrite IH.
Qed.

Lemma scan_perm K1 K2 fuel ma t :
  Permutation K1 K2 -> prefix_freeb K1 = true ->
  scan fuel K1 ma t = scan fuel K2 ma t.
Proof.
  intros HP HK. revert ma t; induction fuel as [|fuel IH]; intros ma t; simpl;
    [reflexivity |].
  rewrite (search_perm K1 K2) by assumption.
  destruct (search K2 ma t) as [[[pre m] r]|]; [| reflexivity].
  now rewrite IH.
Qed.

(** C6, for keywords none of which is, case ignored, a proper prefix of
    another: two keyword lists that are permutations of each other give
    the same matches, at the same offsets, and the same output. *)
Theorem highlight_keyword_order :
  forall (T : string) (K1 K2 : list string),
    Permutation K1 K2 -> prefix_freeb K1 = true ->
    spans 0 (segments T K1) = spans 0 (segments T K2) /\
    highlight_keywords T K1 = highlight_keywords T K2.
Proof.
  intros T K1 K2 HP HK.
  assert (segments T K1 = segments T K2) as E.
  { unfold segments. destruct K1 as [|k K1].
    - apply Permutation_nil in HP. now subst K2.
    - destruct K2 as [|k' K2].
      + apply Permutation_sym, Permutation_nil in HP. discriminate.
      + simpl. now apply scan_perm. }
  unfold highlight_keywords. now rewrite E.
Qed.

End Highlighter.

(** ** Time window *)

Section TimeWindow.
Local Open Scope Z_scope.

Lemma to_us_of_us u : to_us (of_us u) = u.
Proof.
  unfold to_us, of_us, DAY_US. simpl.
  pose proof (Z.div_mod u 86400000000). lia.
Qed.

Lemma of_us_to_us d : 0 <= micros d < DAY_US -> of_us (to_us d) = d.
Proof.
  destruct d as [o m]. unfold to_us, of_us, DAY_US. simpl. intros Hm.
  f_equal.
  - symmetry. apply Z.div_unique with (r := m); lia.
  - symmetry. apply Z.mod_unique with (q := o); lia.
Qed.

Lemma dt_leb_of_us u1 u2 : u1 <= u2 -> dt_leb (of_us u1) (of_us u2) = true.
Proof.
  intros Hle. unfold dt_leb, dt_ltb, of_us, DAY_US. simpl.
  apply negb_true_iff, orb_false_iff.
  pose proof (Z.div_le_mono u1 u2 86400000000 ltac:(lia) Hle) as Hdiv.
  split; [apply Z.ltb_ge; assumption |].
  destruct (Z.eqb_spec (u2 / 86400000000) (u1 / 86400000000)) as [E | _];
    [| reflexivity].
  simpl. apply Z.ltb_ge.
  rewrite (Z.mod_eq u1), (Z.mod_eq u2), E by lia. lia.
Qed.

Lemma dt_leb_spec a b :
  0 <= micros a < DAY_US -> 0 <= micros b < DAY_US ->
  dt_leb a b = true <-> to_us a <= to_us b.
Proof.
  destruct a as [oa ma], b as [ob mb].
  unfold dt_leb, dt_ltb, to_us, DAY_US. simpl. intros Ha Hb.
  rewrite negb_true_iff, orb_false_iff, andb_false_iff,
    Z.ltb_ge, Z.eqb_neq, Z.ltb_ge. lia.
Qed.

Lemma resolve_hours now h :
  valid_datetime now -> 0 < h -> DAY_US <= to_us now - h * HOUR_US ->
  resolve h now = Ok (of_us (to_us now - h * HOUR_US)).
Proof.
  intros [Ho Hm] Hh Hmin. unfold resolve, timedelta_hours, datetime_sub.
  destruct (Z.eqb_spec h 0) as [-> | _]; [lia |].
  assert (to_us now < (MAXORDINAL + 1) * DAY_US) as Hmax
      by (unfold to_us, MAXORDINAL, DAY_US in *; lia).
  assert (0 <= h * HOUR_US / DAY_US <= MAX_DELTA_DAYS) as Hd.
  { split.
    - apply Z.div_pos; unfold HOUR_US, DAY_US; lia.
    - apply Z.div_le_upper_bound; unfold HOUR_US, DAY_US, MAX_DELTA_DAYS, MAXORDINAL in *;
        lia. }
  rewrite Z.abs_eq by lia.
  destruct (Z.leb_spec (h * HOUR_US / DAY_US) MAX_DELTA_DAYS) as [_ | Hbad]; [| lia].
  cbn [ordinal of_us].
  assert (1 <= (to_us now - h * HOUR_US) / DAY_US <= MAXORDINAL) as Hr.
  { split.
    - apply Z.div_le_lower_bound; unfold DAY_US in *; lia.
    - apply Z.lt_succ_r, Z.div_lt_upper_bound;
        unfold HOUR_US, DAY_US, MAXORDINAL in *; lia. }
  destruct (Z.leb_spec 1 ((to_us now - h * HOUR_US) / DAY_US)); [| lia].
  destruct (Z.leb_spec ((to_us now - h * HOUR_US) / DAY_US) MAXORDINAL); [| lia].
  reflexivity.
Qed.

Lemma resolve_overflow now h :
  0 < h -> to_us now - h * HOUR_US < DAY_US ->
  resolve h now = Raised OverflowError.
Proof.
  intros Hh Hmin. unfold resolve, timedelta_hours, datetime_sub.
  destruct (Z.eqb_spec h 0) as [-> | _]; [lia |].
  destruct (Z.abs (h * HOUR_US / DAY_US) <=? MAX_DELTA_DAYS); [| reflexivity].
  cbn [ordinal of_us].
  assert ((to_us now - h * HOUR_US) / DAY_US < 1) as Hr
      by (apply Z.div_lt_upper_bound; unfold DAY_US in *; lia).
  destruct (Z.leb_spec 1 ((to_us now - h * HOUR_US) / DAY_US)); [lia |].
  reflexivity.
Qed.

Lemma resolve_ok_inv now h t :
  0 < h -> resolve h now = Ok t -> DAY_US <= to_us now - h * HOUR_US.
Proof.
  intros Hh E. destruct (Z.le_gt_cases DAY_US (to_us now - h * HOUR_US)) as [Hle | Hgt];
    [assumption |].
  rewrite resolve_overflow in E by (assumption || lia). discriminate.
Qed.

(** C5, as the code has it: window 0 gives midnight of the current day;
    a window of [h > 0] hours gives the wall clock [h] hours back, or an
    overflow error when that lies before [datetime.min]; among positive
    windows a longer one gives an earlier or equal threshold. *)
Theorem time_window_threshold :
  forall now : datetime,
    valid_datetime now ->
    (resolve 0 now = Ok (replace_midnight now) /\
     ordinal (replace_midnight now) = ordinal now /\
     micros (replace_midnight now) = 0 /\
     dt_leb (replace_midnight now) now = true) /\
    (forall h, 0 < h -> DAY_US <= to_us now - h * HOUR_US ->
               exists t, resolve h now = Ok t /\
                         to_us t = to_us now - h * HOUR_US) /\
    (forall h, 0 < h -> to_us now - h * HOUR_US < DAY_US ->
               resolve h now = Raised OverflowError) /\
    (forall h1 h2 t1,
        0 < h2 <= h1 -> resolve h1 now = Ok t1 ->
        exists t2, resolve h2 now = Ok t2 /\ dt_leb t1 t2 = true).
Proof.
  intros now Hv. split; [| split; [| split]].
  - repeat split. destruct Hv as [_ Hm].
    apply dt_leb_spec; [simpl; unfold DAY_US; lia | assumption |].
    unfold to_us. simpl. lia.
  - intros h Hh Hmin. exists (of_us (to_us now - h * HOUR_US)).
    split; [now apply resolve_hours | apply to_us_of_us].
  - intros h Hh Hmin. now apply resolve_overflow.
  - intros h1 h2 t1 [Hh2 Hle] E1.
    pose proof (resolve_ok_inv now h1 t1 ltac:(lia) E1) as Hmin1.
    assert (DAY_US <= to_us now - h2 * HOUR_US) as Hmin2
        by (unfold HOUR_US in *; lia).
    rewrite resolve_hours in E1 by (assumption || lia). injection E1 as <-.
    exists (of_us (to_us now - h2 * HOUR_US)).
    split; [now apply resolve_hours |].
    apply dt_leb_of_us. unfold HOUR_US. lia.
Qed.

End TimeWindow.

(** ** The sort of the digest writers *)

Section Sorting.
Context {A : Type} (key : A -> Z).

Lemma insert_by_perm x l : Permutation (insert_by key x l) (x :: l).
Proof.
  induction l as [|y l IH]; simpl; [reflexivity |].
  destruct (key x <=? key y)%Z; [reflexivity |].
  rewrite IH. apply perm_swap.
Qed.

Lemma sort_by_perm l : Permutation (sort_by key l) l.
Proof.
  induction l as [|x l IH]; simpl; [reflexivity |].
  rewrite insert_by_perm. now constructor.
Qed.

Lemma insert_by_sorted x l :
  StronglySorted (key_le key) l -> StronglySorted (key_le key) (insert_by key x l).
Proof.
  induction 1 as [|y l Hs IH Hy]; simpl; [repeat constructor |].
  destruct (Z.leb_spec (key x) (key y)) as [Hle | Hgt].
  - constructor; [now constructor |]. constructor; [assumption |].
    eapply List.Forall_impl; [| exact Hy]. unfold key_le. intros; lia.
  - constructor; [assumption |].
    rewrite List.Forall_forall in *. intros z Hz.
    apply (Permutation_in _ (insert_by_perm x l)) in Hz as [<- | Hz].
    + unfold key_le. lia.
    + now apply Hy.
Qed.

Lemma sort_by_sorted l : StronglySorted (key_le key) (sort_by key l).
Proof.
  induction l as [|x l IH]; simpl; [constructor | now apply insert_by_sorted].
Qed.

(** Stability: the items of any one key keep their relative order. *)
Lemma insert_by_stable z x l :
  List.filter (fun y => (key y =? z)%Z) (insert_by key x l) =
  List.filter (fun y => (key y =? z)%Z) (x :: l).
Proof.
  induction l as [|y l IH]; [reflexivity |].
  cbn [insert_by]. destruct (Z.leb_spec (key x) (key y)) as [Hle | Hgt];
    [reflexivity |].
  cbn [List.filter] in *. rewrite IH.
  destruct (Z.eqb_spec (key x) z), (Z.eqb_spec (key y) z); try reflexivity. lia.
Qed.

Lemma sort_by_stable z l :
  List.filter (fun y => (key y =? z)%Z) (sort_by key l) =
  List.filter (fun y => (key y =? z)%Z) l.
Proof.
  induction l as [|x l IH]; [reflexivity |].
  cbn [sort_by fold_right]. fold (sort_by key l).
  rewrite insert_by_stable. cbn [List.filter]. now rewrite IH.
Qed.

Lemma sort_by_sorted_id l : StronglySorted (key_le key) l -> sort_by key l = l.
Proof.
  induction 1 as [|x l Hs IH Hx]; [reflexivity |].
  cbn [sort_by fold_right]. fold (sort_by key l). rewrite IH.
  destruct l as [|y l]; [reflexivity |]. simpl.
  apply List.Forall_inv in Hx. unfold key_le in Hx.
  destruct (Z.leb_spec (key x) (key y)); [reflexivity | lia].
Qed.

Lemma sort_by_idem l : sort_by key (sort_by key l) = sort_by key l.
Proof. apply sort_by_sorted_id, sort_by_sorted. Qed.

End Sorting.

Section SortByDate.

Lemma StronglySorted_weaken {A} (R S : A -> A -> Prop) l :
  (forall a b, R a b -> S a b) -> StronglySorted R l -> StronglySorted S l.
Proof.
  intros HRS. induction 1 as [|x l Hs IH Hx]; constructor; [assumption |].
  eapply List.Forall_impl; [| exact Hx]. intros b. apply HRS.
Qed.

(** The sort of [save_posts] puts the posts in the order of their dates,
    and keeps the order of posts of one date. *)
Lemma sort_posts_by_date l : StronglySorted post_not_after (sort_by post_date l).
Proof.
  apply (StronglySorted_weaken (key_le post_date)); [| apply sort_by_sorted].
  intros [[ea pa] ga] [[eb pb] gb] Hab. exact Hab.
Qed.

Lemma sort_posts_stable z l :
  List.filter (post_dated z) (sort_by post_date l) = List.filter (post_dated z) l.
Proof.
  transitivity (List.filter (fun y => (post_date y =? z)%Z) (sort_by post_date l)).
  - apply List.filter_ext. intros [[e p] g]. reflexivity.
  - rewrite sort_by_stable. apply List.filter_ext. intros [[e p] g]. reflexivity.
Qed.

Lemma sort_comments_by_date l :
  StronglySorted comment_not_after (sort_by comment_date l).
Proof.
  apply (StronglySorted_weaken (key_le comment_date)); [| apply sort_by_sorted].
  intros [[[ea ca] ga] pa] [[[eb cb] gb] pb] Hab. exact Hab.
Qed.

Lemma sort_comments_stable z l :
  List.filter (comment_dated z) (sort_by comment_date l) =
  List.filter (comment_dated z) l.
Proof.
  transitivity (List.filter (fun y => (comment_date y =? z)%Z) (sort_by comment_date l)).
  - apply List.filter_ext. intros [[[e c] g] p]. reflexivity.
  - rewrite sort_by_stable. apply List.filter_ext. intros [[[e c] g] p]. reflexivity.
Qed.

End SortByDate.

(** ** Digest writers *)

Section DigestWriters.
Context `{Runtime}.

Lemma write_all path ws : forall w c,
  files w !! path = Some c ->
  for_each ws (write path) w =
  (Ok tt, {| heap := heap w; files := <[path := c +:+ Str.concat ws]> (files w);
             stdout := stdout w; clock := clock w |}).
Proof.
  induction ws as [|s ws IH]; intros w c Hc; simpl.
  - unfold ret. rewrite StrFacts.app_nil_r, insert_id by assumption.
    now destruct w.
  - unfold bind, write at 1. rewrite Hc. simpl.
    rewrite (IH _ (c +:+ s)) by (simpl; apply lookup_insert_eq).
    simpl. now rewrite insert_insert_eq, StrFacts.app_assoc.
Qed.

(** The loop of a writer, for any shape of item: [body] writes the entry
    of an item or raises. *)
Lemma save_loop {A} path (entry : A -> option string) (body : A -> M unit) :
  (forall x w c, files w !! path = Some c ->
     body x w =
     match entry x with
     | Some s => (Ok tt, {| heap := heap w; files := <[path := c +:+ s]> (files w);
                            stdout := stdout w; clock := clock w |})
     | None => (Raised TypeError, w)
     end) ->
  forall l w c, files w !! path = Some c ->
    for_each l body w =
    (if snd (digest entry l) then Ok tt else Raised TypeError,
     {| heap := heap w; files := <[path := c +:+ fst (digest entry l)]> (files w);
        stdout := stdout w; clock := clock w |}).
Proof.
  intros Hbody. induction l as [|x l IH]; intros w c Hc; simpl.
  - unfold ret. rewrite StrFacts.app_nil_r, insert_id by assumption.
    now destruct w.
  - unfold bind. rewrite (Hbody x w c Hc). destruct (entry x) as [s|]; simpl.
    + rewrite (IH _ (c +:+ s)) by (simpl; apply lookup_insert_eq).
      destruct (digest entry l) as [d ok]. simpl.
      now rewrite insert_insert_eq, StrFacts.app_assoc.
    + rewrite StrFacts.app_nil_r, insert_id by assumption. now destruct w.
Qed.

Lemma save_post_run self x w c :
  files w !! saved_posts_md = Some c ->
  save_post self x w =
  match post_entry self x with
  | Some s => (Ok tt, {| heap := heap w;
                         files := <[saved_posts_md := c +:+ s]> (files w);
                         stdout := stdout w; clock := clock w |})
  | None => (Raised TypeError, w)
  end.
Proof.
  intros Hc. destruct x as [[e post] g]. unfold save_post, post_entry.
  destruct (text post) as [t|]; [| reflexivity]. now apply write_all.
Qed.

Lemma save_comment_run self x w c :
  files w !! saved_comments_md = Some c ->
  save_comment self x w =
  match comment_entry self x with
  | Some s => (Ok tt, {| heap := heap w;
                         files := <[saved_comments_md := c +:+ s]> (files w);
                         stdout := stdout w; clock := clock w |})
  | None => (Raised TypeError, w)
  end.
Proof.
  intros Hc. destruct x as [[[e comment] g] post]. unfold save_comment, comment_entry.
  destruct (text comment) as [t|]; [| reflexivity]. now apply write_all.
Qed.

(** What [save_posts] does to the world. *)
Lemma save_posts_run self posts w l :
  heap w !! posts = Some (Posts l) ->
  save_posts self posts w =
  let sorted := sort_by post_date l in
  after_save w posts (Posts sorted) saved_posts_md
             (fst (digest (post_entry self) sorted))
             (snd (digest (post_entry self) sorted))
             (saved_posts_msg (length sorted)).
Proof.
  intros Hl. unfold save_posts, after_save, bind at 1, load. rewrite Hl.
  unfold bind, store, open_w. cbn [heap files stdout clock].
  rewrite (save_loop saved_posts_md (post_entry self) (save_post self)
             (save_post_run self) _ _ EmptyString)
    by (simpl; apply lookup_insert_eq).
  cbn [heap files stdout clock]. rewrite insert_insert_eq.
  cbn [String.append].
  destruct (snd (digest (post_entry self) (sort_by post_date l))); reflexivity.
Qed.

Lemma save_comments_run self comments w l :
  heap w !! comments = Some (Comments l) ->
  save_comments self comments w =
  let sorted := sort_by comment_date l in
  after_save w comments (Comments sorted) saved_comments_md
             (fst (digest (comment_entry self) sorted))
             (snd (digest (comment_entry self) sorted))
             (saved_comments_msg (length sorted)).
Proof.
  intros Hl. unfold save_comments, after_save, bind at 1, load. rewrite Hl.
  unfold bind, store, open_w. cbn [heap files stdout clock].
  rewrite (save_loop saved_comments_md (comment_entry self) (save_comment self)
             (save_comment_run self) _ _ EmptyString)
    by (simpl; apply lookup_insert_eq).
  cbn [heap files stdout clock]. rewrite insert_insert_eq.
  cbn [String.append].
  destruct (snd (digest (comment_entry self) (sort_by comment_date l))); reflexivity.
Qed.

End DigestWriters.

Section DigestProperties.
Context `{Runtime}.

Lemma digest_complete {A} (entry : A -> option string) l :
  (forall x, In x l -> entry x <> None) -> snd (digest entry l) = true.
Proof.
  induction l as [|x l IH]; intros Hall; simpl; [reflexivity |].
  destruct (entry x) as [s|] eqn:E.
  - destruct (digest entry l) as [d ok]. simpl in *. apply IH.
    intros y Hy. apply Hall. now right.
  - exfalso. apply (Hall x); [now left | assumption].
Qed.

(** C3: each digest writer leaves in its file the entries of the stably
    sorted list, oldest first, ties in their original order; it completes
    when every item has a text; called again on the same list it writes
    the same bytes. *)
Theorem digest_sorted_stable_idempotent :
  forall (self : TelegramChecker) (w : world) (posts comments : loc)
         (lp : list post_t) (lc : list comment_t),
    heap w !! posts = Some (Posts lp) ->
    heap w !! comments = Some (Comments lc) ->
    let sp := sort_by post_date lp in
    let sc := sort_by comment_date lc in
    let w1 := snd (save_posts self posts w) in
    let w2 := snd (save_comments self comments w) in
    (files w1 !! saved_posts_md = Some (fst (digest (post_entry self) sp)) /\
     StronglySorted post_not_after sp /\
     Permutation sp lp /\
     (forall z, List.filter (post_dated z) sp = List.filter (post_dated z) lp) /\
     ((forall x, In x lp -> text (snd (fst x)) <> None) ->
      fst (save_posts self posts w) = Ok tt) /\
     fst (save_posts self posts w1) = fst (save_posts self posts w) /\
     files (snd (save_posts self posts w1)) !! saved_posts_md =
     files w1 !! saved_posts_md) /\
    (files w2 !! saved_comments_md = Some (fst (digest (comment_entry self) sc)) /\
     StronglySorted comment_not_after sc /\
     Permutation sc lc /\
     (forall z, List.filter (comment_dated z) sc = List.filter (comment_dated z) lc) /\
     ((forall x, In x lc -> text (snd (fst (fst x))) <> None) ->
      fst (save_comments self comments w) = Ok tt) /\
     fst (save_comments self comments w2) = fst (save_comments self comments w) /\
     files (snd (save_comments self comments w2)) !! saved_comments_md =
     files w2 !! saved_comments_md).
Proof.
  intros self w posts comments lp lc Hp Hc sp sc w1 w2. split.
  - subst w1. rewrite (save_posts_run self posts w lp Hp). fold sp.
    unfold after_save. cbn [fst snd files].
    assert (heap {| heap := <[posts := Posts sp]> (heap w);
                    files := <[saved_posts_md := fst (digest (post_entry self) sp)]> (files w);
                    stdout := if snd (digest (post_entry self) sp)
                              then (stdout w ++ [saved_posts_msg (length sp)])%list
                              else stdout w;
                    clock := clock w |} !! posts = Some (Posts sp)) as Hp1
        by (simpl; apply lookup_insert_eq).
    rewrite (save_posts_run self posts _ sp Hp1). unfold after_save.
    cbn [fst snd files]. unfold sp at 7 8 9. rewrite sort_by_idem. fold sp.
    repeat split.
    + apply lookup_insert_eq.
    + apply sort_posts_by_date.
    + apply sort_by_perm.
    + intros z. apply sort_posts_stable.
    + intros Hall. rewrite digest_complete; [reflexivity |].
      intros [[e p] g] Hin. apply (Permutation_in _ (sort_by_perm post_date lp)) in Hin.
      specialize (Hall _ Hin). simpl in *. now destruct (text p).
    + now rewrite !lookup_insert_eq.
  - subst w2. rewrite (save_comments_run self comments w lc Hc). fold sc.
    unfold after_save. cbn [fst snd files].
    assert (heap {| heap := <[comments := Comments sc]> (heap w);
                    files := <[saved_comments_md :=
                                 fst (digest (comment_entry self) sc)]> (files w);
                    stdout := if snd (digest (comment_entry self) sc)
                              then (stdout w ++ [saved_comments_msg (length sc)])%list
                              else stdout w;
                    clock := clock w |} !! comments = Some (Comments sc)) as Hc1
        by (simpl; apply lookup_insert_eq).
    rewrite (save_comments_run self comments _ sc Hc1). unfold after_save.
    cbn [fst snd files]. unfold sc at 7 8 9. rewrite sort_by_idem. fold sc.
    repeat split.
    + apply lookup_insert_eq.
    + apply sort_comments_by_date.
    + apply sort_by_perm.
    + intros z. apply sort_comments_stable.
    + intros Hall. rewrite digest_complete; [reflexivity |].
      intros [[[e r] g] p] Hin.
      apply (Permutation_in _ (sort_by_perm comment_date lc)) in Hin.
      specialize (Hall _ Hin). simpl in *. now destruct (text r).
    + now rewrite !lookup_insert_eq.
Qed.

End DigestProperties.

(** ** Entry layout and links *)

Section EntryLayout.
Context `{Runtime}.

Lemma digest_concat {A} (entry : A -> option string) l :
  fst (digest entry l) = Str.concat (digest_entries entry l).
Proof.
  induction l as [|x l IH]; simpl; [reflexivity |].
  destruct (entry x) as [s|]; [| reflexivity].
  destruct (digest entry l) as [d ok]. simpl in *. now rewrite IH.
Qed.

Lemma digest_entries_In {A} (entry : A -> option string) l s :
  In s (digest_entries entry l) -> exists x, In x l /\ entry x = Some s.
Proof.
  induction l as [|x l IH]; simpl; [easy |].
  destruct (entry x) as [s'|] eqn:E; [| easy].
  intros [<- | Hin]; [eauto |]. destruct (IH Hin) as [y [Hy Ey]]. eauto.
Qed.

Ltac flatten_append :=
  simpl; repeat rewrite ?StrFacts.app_assoc, ?StrFacts.app_nil_r; simpl.

Lemma post_entry_layout self e post g s :
  post_entry self (e, post, g) = Some s ->
  exists t, text post = Some t /\
            s = entry_layout "**Date:**" "**Post:**" "Post Link" g
                             (strftime (astimezone (date post)))
                             (highlight_keywords t (keywords self))
                             (post_link e post).
Proof.
  unfold post_entry. destruct (text post) as [t|]; [| discriminate].
  intros [= <-]. exists t. split; [reflexivity |].
  unfold post_writes, entry_layout, Str.concat, nl. flatten_append. reflexivity.
Qed.

Lemma comment_entry_layout self e comment g post s :
  comment_entry self (e, comment, g, post) = Some s ->
  exists t, text comment = Some t /\
            s = entry_layout "**Comment Date:**" "**Comment:**" "Comment Link" g
                             (strftime (astimezone (date comment)))
                             (highlight_keywords t (keywords self))
                             (comment_link e post comment).
Proof.
  unfold comment_entry. destruct (text comment) as [t|]; [| discriminate].
  intros [= <-]. exists t. split; [reflexivity |].
  unfold comment_writes, entry_layout, Str.concat, nl. flatten_append. reflexivity.
Qed.

(** C8, as the code has it: the posts digest is a sequence of entries with
    the labels "**Date:**", "**Post:**" and "[Post Link]"; the comments
    digest is a sequence of entries of the same shape with the labels
    "**Comment Date:**", "**Comment:**" and "[Comment Link]".  The date is
    the formatted local time followed by " (Kyiv)". *)
Theorem digest_entry_layout :
  forall (self : TelegramChecker) (w : world) (posts comments : loc)
         (lp : list post_t) (lc : list comment_t),
    heap w !! posts = Some (Posts lp) ->
    heap w !! comments = Some (Comments lc) ->
    (exists es,
        files (snd (save_posts self posts w)) !! saved_posts_md = Some (Str.concat es) /\
        forall s, In s es ->
          exists e post g t,
            In (e, post, g) lp /\ text post = Some t /\
            s = entry_layout "**Date:**" "**Post:**" "Post Link" g
                             (strftime (astimezone (date post)))
                             (highlight_keywords t (keywords self))
                             (post_link e post)) /\
    (exists es,
        files (snd (save_comments self comments w)) !! saved_comments_md =
        Some (Str.concat es) /\
        forall s, In s es ->
          exists e comment g post t,
            In (e, comment, g, post) lc /\ text comment = Some t /\
            s = entry_layout "**Comment Date:**" "**Comment:**" "Comment Link" g
                             (strftime (astimezone (date comment)))
                             (highlight_keywords t (keywords self))
                             (comment_link e post comment)).
Proof.
  intros self w posts comments lp lc Hp Hc. split.
  - exists (digest_entries (post_entry self) (sort_by post_date lp)). split.
    + rewrite (save_posts_run self posts w lp Hp). unfold after_save. cbn [snd files].
      rewrite lookup_insert_eq. now rewrite digest_concat.
    + intros s Hs. apply digest_entries_In in Hs as [[[e post] g] [Hin Es]].
      apply (Permutation_in _ (sort_by_perm post_date lp)) in Hin.
      apply post_entry_layout in Es as [t [Et Es]]. now exists e, post, g, t.
  - exists (digest_entries (comment_entry self) (sort_by comment_date lc)). split.
    + rewrite (save_comments_run self comments w lc Hc). unfold after_save.
      cbn [snd files]. rewrite lookup_insert_eq. now rewrite digest_concat.
    + intros s Hs. apply digest_entries_In in Hs as [[[[e comment] g] post] [Hin Es]].
      apply (Permutation_in _ (sort_by_perm comment_date lc)) in Hin.
      apply comment_entry_layout in Es as [t [Et Es]]. now exists e, comment, g, post, t.
Qed.

Lemma of_Z_decimal n : decimal_value (Str.of_Z n) = Some n.
Proof.
  unfold decimal_value, Str.of_Z. rewrite NilZero.isi.
  - simpl. f_equal. apply DecimalZ.of_to.
  - destruct n; simpl; try discriminate. intros [= E].
    now apply Unsigned.to_uint_nonnil in E.
  - destruct n; simpl; try discriminate. intros [= E].
    now apply Unsigned.to_uint_nonnil in E.
Qed.

Lemma post_link_spec e post : link_of_post e post (post_link e post).
Proof.
  unfold link_of_post, post_link, public_username, has_public_username,
    no_public_username.
  destruct (username e) as [|[u|]]; [right; auto | | right; auto].
  destruct u as [|ch u]; [right; auto |]. left.
  exists (String ch u), (Str.of_Z (id post)).
  repeat split; [discriminate | apply of_Z_decimal].
Qed.

Lemma comment_link_spec e post comment :
  link_of_comment e post comment (comment_link e post comment).
Proof.
  unfold link_of_comment, comment_link, public_username, has_public_username,
    no_public_username.
  destruct (username e) as [|[u|]]; [right; auto | | right; auto].
  destruct u as [|ch u]; [right; auto |]. left.
  exists (String ch u), (Str.of_Z (id post)), (Str.of_Z (id comment)).
  repeat split; [discriminate | apply of_Z_decimal | apply of_Z_decimal].
Qed.

(** C9, with the placeholder as the code spells it: every entry a digest
    writer puts in its file carries, in its link field, the link of its
    item: for a group with a public username [u] the URL
    https://t.me/u/<post id> of the post, for a comment with
    ?comment=<comment id> added; for a group without one (no attribute,
    [None] or an empty string) the placeholder "No public link". *)
Theorem digest_links :
  forall (self : TelegramChecker) (w : world) (posts comments : loc)
         (lp : list post_t) (lc : list comment_t),
    heap w !! posts = Some (Posts lp) ->
    heap w !! comments = Some (Comments lc) ->
    (exists es,
        files (snd (save_posts self posts w)) !! saved_posts_md = Some (Str.concat es) /\
        forall s, In s es ->
          exists e post g ts body link,
            In (e, post, g) lp /\
            s = entry_layout "**Date:**" "**Post:**" "Post Link" g ts body link /\
            link_of_post e post link) /\
    (exists es,
        files (snd (save_comments self comments w)) !! saved_comments_md =
        Some (Str.concat es) /\
        forall s, In s es ->
          exists e comment g post ts body link,
            In (e, comment, g, post) lc /\
            s = entry_layout "**Comment Date:**" "**Comment:**" "Comment Link"
                             g ts body link /\
            link_of_comment e post comment link).
Proof.
  intros self w posts comments lp lc Hp Hc. split.
  - exists (digest_entries (post_entry self) (sort_by post_date lp)). split.
    + rewrite (save_posts_run self posts w lp Hp). unfold after_save. cbn [snd files].
      rewrite lookup_insert_eq. now rewrite digest_concat.
    + intros s Hs. apply digest_entries_In in Hs as [[[e post] g] [Hin Es]].
      apply (Permutation_in _ (sort_by_perm post_date lp)) in Hin.
      apply post_entry_layout in Es as [t [Et Es]].
      exists e, post, g, (strftime (astimezone (date post))),
        (highlight_keywords t (keywords self)), (post_link e post).
      repeat split; [assumption | assumption | apply post_link_spec].
  - exists (digest_entries (comment_entry self) (sort_by comment_date lc)). split.
    + rewrite (save_comments_run self comments w lc Hc). unfold after_save.
      cbn [snd files]. rewrite lookup_insert_eq. now rewrite digest_concat.
    + intros s Hs. apply digest_entries_In in Hs as [[[[e comment] g] post] [Hin Es]].
      apply (Permutation_in _ (sort_by_perm comment_date lc)) in Hin.
      apply comment_entry_layout in Es as [t [Et Es]].
      exists e, comment, g, post, (strftime (astimezone (date comment))),
        (highlight_keywords t (keywords self)), (comment_link e post comment).
      repeat split; [assumption | assumption | apply comment_link_spec].
Qed.

(** C10: a digest writer sorts the very list object it is given; after
    the call the caller's reference holds the same items in ascending
    order of date, and no other list object has changed. *)
Theorem save_sorts_in_place :
  forall (self : TelegramChecker) (w : world) (posts comments : loc)
         (lp : list post_t) (lc : list comment_t),
    heap w !! posts = Some (Posts lp) ->
    heap w !! comments = Some (Comments lc) ->
    let w1 := snd (save_posts self posts w) in
    let w2 := snd (save_comments self comments w) in
    (heap w1 !! posts = Some (Posts (sort_by post_date lp)) /\
     StronglySorted post_not_after (sort_by post_date lp) /\
     Permutation (sort_by post_date lp) lp /\
     forall l' : loc, l' <> posts -> heap w1 !! l' = heap w !! l') /\
    (heap w2 !! comments = Some (Comments (sort_by comment_date lc)) /\
     StronglySorted comment_not_after (sort_by comment_date lc) /\
     Permutation (sort_by comment_date lc) lc /\
     forall l' : loc, l' <> comments -> heap w2 !! l' = heap w !! l').
Proof.
  intros self w posts comments lp lc Hp Hc w1 w2. subst w1 w2.
  rewrite (save_posts_run self posts w lp Hp), (save_comments_run self comments w lc Hc).
  unfold after_save. cbn [snd heap]. repeat split.
  - apply lookup_insert_eq.
  - apply sort_posts_by_date.
  - apply sort_by_perm.
  - intros l' Hne. now apply lookup_insert_ne.
  - apply lookup_insert_eq.
  - apply sort_comments_by_date.
  - apply sort_by_perm.
  - intros l' Hne. now apply lookup_insert_ne.
Qed.

End EntryLayout.

(** ** Fetching *)

Section Fetching.
Context `{Runtime}.

Lemma collect_posts_top_level thr e g tail : forall msgs acc posts,
  (forall x, In x acc -> top_level x) ->
  collect_posts thr e g msgs tail acc = Ok posts ->
  forall x, In x posts -> top_level x.
Proof.
  induction msgs as [|msg msgs IH]; intros acc posts Hacc; simpl.
  - destruct tail; [discriminate |]. now intros [= <-].
  - destruct (dt_ltb (astimezone (date msg)) thr); [now intros [= <-] |].
    destruct (reply_to_msg_id msg) eqn:Er; [now apply IH |].
    apply IH. intros x Hx. apply in_app_or in Hx as [Hx | [<- | []]];
      [now apply Hacc | exact Er].
Qed.

Lemma fetch_groups_top_level c thr : forall gs acc w posts w',
  (forall x, In x acc -> top_level x) ->
  fetch_groups c thr gs acc w = (Ok posts, w') ->
  forall x, In x posts -> top_level x.
Proof.
  induction gs as [|g gs IH]; intros acc w posts w' Hacc; simpl.
  - unfold ret. now intros [= <- _].
  - destruct (get_entity c g) as [e|ex]; unfold bind, print, lift.
    + destruct (iter_messages c e None) as [msgs tail].
      destruct (collect_posts thr e g msgs tail acc) as [acc'|ex] eqn:Ec;
        [| discriminate].
      apply IH. now apply (collect_posts_top_level thr e g tail msgs acc).
    + now apply IH.
Qed.

(** C4: whatever the streams deliver, a list returned by [fetch_posts]
    holds no reply, and so neither does the list of posts that passes the
    keyword filter and is sorted into the posts digest. *)
Theorem fetch_posts_top_level_only :
  forall (self : TelegramChecker) (c : client) (w w' : world) (posts : list post_t),
    fetch_posts self c w = (Ok posts, w') ->
    (forall x, In x posts -> top_level x) /\
    (forall x, In x (sort_by post_date (filter_posts_by_keywords self posts)) ->
               top_level x).
Proof.
  intros self c w w' posts. unfold fetch_posts, bind at 1.
  destruct (_get_time_filter self w) as [[thr|ex] w0]; [| discriminate].
  unfold bind at 1.
  destruct (fetch_groups c thr (groups self) [] w0) as [[ps|ex] w1] eqn:Eg;
    [| discriminate].
  unfold bind, print, ret. intros [= <- _].
  assert (forall x, In x ps -> top_level x) as Hps
      by (apply (fetch_groups_top_level c thr (groups self) [] w0 ps w1); [easy | assumption]).
  split; [assumption |].
  intros x Hx. apply (Permutation_in _ (sort_by_perm post_date _)) in Hx.
  unfold filter_posts_by_keywords in Hx. apply filter_In in Hx as [Hx _].
  now apply Hps.
Qed.

(** The handler of [fetch_comments]: a reply stream that ends with
    [MsgIdInvalidError] is reported and the loop goes on; the replies it
    had yielded before are in the list already. *)
Lemma collect_comments_invalid_reply_target (c : client) e post g n rs msg acc w :
  replies post = Some n ->
  iter_messages c e (Some (id post)) = (rs, Some (MsgIdInvalidError msg)) ->
  collect_comments c (e, post, g) acc w =
  (Ok (acc ++ map (fun reply => (e, reply, g, post)) rs)%list,
   {| heap := heap w; files := files w;
      stdout := (stdout w ++
                 ["Skipping post " +:+ Str.of_Z (id post) +:+ " from group " +:+
                  g +:+ " due to error: " +:+ msg])%list;
      clock := clock w |}).
Proof.
  intros Hr Hs. unfold collect_comments. rewrite Hr, Hs. reflexivity.
Qed.

End Fetching.

(** * Worked examples *)

Section Examples.
#[local] Existing Instance ascii_runtime.

(** Outside the configurations the filter is meant for: an empty text is
    present and contains the empty keyword, yet the filter drops it. *)
Lemma keyword_filter_empty_text :
  present_with_keyword (Some EmptyString) [EmptyString] /\
  matches (Some EmptyString) [EmptyString] = false.
Proof.
  split; [| reflexivity].
  exists EmptyString. split; [reflexivity |].
  exists EmptyString. split; [now left |]. now exists EmptyString, EmptyString.
Qed.

Lemma keyword_filter_present_text_witness :
  present_with_keyword (Some "Urgent issue") (keywords ex_checker) /\
  matches (Some "nothing here") (keywords ex_checker) = false.
Proof.
  split; [| reflexivity].
  apply (proj1 (keyword_filter_present_text ex_checker
                  ltac:(intros k [<- | []]; discriminate))).
  reflexivity.
Defined.



(** C6 as stated fails: "a" before "ab" matches "a" in "ab", "ab" before
    "a" matches "ab". *)
Lemma highlight_keyword_order_differs :
  Permutation ["a"; "ab"] ["ab"; "a"] /\
  spans 0 (segments "ab" ["a"; "ab"]) = [(0%nat, "a")] /\
  spans 0 (segments "ab" ["ab"; "a"]) = [(0%nat, "ab")].
Proof. split; [apply perm_swap | split; reflexivity]. Qed.

Lemma highlight_keyword_order_witness :
  highlight_keywords "an urgent fix" ["urgent"; "fix"] =
  highlight_keywords "an urgent fix" ["fix"; "urgent"].
Proof.
  exact (proj2 (highlight_keyword_order "an urgent fix" ["urgent"; "fix"]
                  ["fix"; "urgent"] (perm_swap _ _ _) eq_refl)).
Defined.

(** C5 as stated fails: at 15:00 the one-hour window starts at 14:00,
    later than the start of window 0, which is midnight. *)
Lemma time_window_not_monotone_at_zero :
  (1 >= 0)%Z /\
  resolve 1 ex_now = Ok {| ordinal := 739000; micros := (14 * HOUR_US)%Z |} /\
  resolve 0 ex_now = Ok {| ordinal := 739000; micros := 0 |} /\
  dt_leb {| ordinal := 739000; micros := (14 * HOUR_US)%Z |}
         {| ordinal := 739000; micros := 0 |} = false.
Proof. repeat split. discriminate. Qed.

Lemma valid_ex_now : valid_datetime ex_now.
Proof. unfold valid_datetime, ex_now, MAXORDINAL, DAY_US, HOUR_US. simpl. lia. Qed.

Lemma time_window_threshold_witness :
  resolve 0 ex_now = Ok (replace_midnight ex_now).
Proof.
  exact (proj1 (proj1 (time_window_threshold ex_now valid_ex_now))).
Defined.

Lemma ex_world_posts : heap ex_world !! 1%positive = Some (Posts ex_posts).
Proof. reflexivity. Qed.

Lemma ex_world_comments : heap ex_world !! 2%positive = Some (Comments ex_comments).
Proof. reflexivity. Qed.

Lemma digest_sorted_stable_idempotent_witness :
  files (snd (save_posts ex_checker 1%positive ex_world)) !! saved_posts_md =
  Some (fst (digest (post_entry ex_checker)
                    [(ex_entity, ex_post2, "a"); (ex_entity, ex_post1, "a")])) /\
  files (snd (save_comments ex_checker 2%positive ex_world)) !! saved_comments_md =
  Some (fst (digest (comment_entry ex_checker)
                    [(ex_entity, ex_reply2, "a", ex_post2);
                     (ex_entity, ex_reply1, "a", ex_post1)])).
Proof.
  pose proof (digest_sorted_stable_idempotent ex_checker ex_world 1%positive 2%positive
                ex_posts ex_comments ex_world_posts ex_world_comments) as [Hp Hc].
  split; [exact (proj1 Hp) | exact (proj1 Hc)].
Defined.

(** The run of [fetch_posts] on the example: the reply and the message of
    the day before are left out, group "b" is reported and skipped. *)
Lemma ex_fetch_posts :
  fetch_posts ex_checker ex_client ex_world =
  (Ok ex_posts,
   {| heap := heap ex_world; files := files ex_world;
      stdout := ["Processing group: a"; "Failed to access group b: no such group";
                 "Found 2 posts for the specified period."];
      clock := ex_now |}).
Proof. reflexivity. Qed.

Lemma fetch_posts_top_level_only_witness :
  top_level (ex_entity, ex_post1, "a") /\ top_level (ex_entity, ex_post2, "a").
Proof.
  pose proof (fetch_posts_top_level_only ex_checker ex_client ex_world _ ex_posts
                ex_fetch_posts) as [Hall _].
  split; apply Hall; simpl; auto.
Defined.

(** C7 on the example: the reply stream of post 1 yields [ex_reply1] and
    then raises [MsgIdInvalidError]; the error is reported, the comments
    of post 2 are fetched, and the reply to post 1 is in the returned
    list all the same. *)
Theorem fetch_comments_keeps_partial_replies :
  fetch_comments ex_checker ex_client ex_posts ex_world =
  (Ok [(ex_entity, ex_reply1, "a", ex_post1); (ex_entity, ex_reply2, "a", ex_post2)],
   {| heap := heap ex_world; files := files ex_world;
      stdout := ["Skipping post 1 from group a due to error: MSG_ID_INVALID";
                 "Found 2 comments with keywords for posts in the specified period."];
      clock := ex_now |}).
Proof. reflexivity. Qed.

(** C8 as stated fails: an entry of the comments digest has neither a
    "**Date:**" line nor a "[Post Link](" line. *)
Lemma comment_entry_labels :
  exists s,
    comment_entry ex_checker (ex_entity, ex_reply1, "a", ex_post1) = Some s /\
    Str.contains "**Date:**" s = false /\
    Str.contains "[Post Link](" s = false /\
    Str.contains "**Comment Date:**" s = true /\
    Str.contains "[Comment Link](" s = true.
Proof. eexists. split; [reflexivity |]. repeat split; vm_compute; reflexivity. Qed.

Lemma digest_entry_layout_witness :
  exists es,
    files (snd (save_posts ex_checker 1%positive ex_world)) !! saved_posts_md =
    Some (Str.concat es).
Proof.
  destruct (digest_entry_layout ex_checker ex_world 1%positive 2%positive
              ex_posts ex_comments ex_world_posts ex_world_comments)
    as [[es [Hes _]] _].
  now exists es.
Defined.

Lemma ex_world_links_posts :
  heap ex_world_links !! 1%positive =
  Some (Posts [(ex_entity, ex_post1, "a"); (ex_private_entity, ex_post2, "-1001234")]).
Proof. reflexivity. Qed.

Lemma ex_world_links_comments :
  heap ex_world_links !! 2%positive =
  Some (Comments [(ex_entity, ex_reply1, "a", ex_post1);
                  (ex_private_entity, ex_reply2, "-1001234", ex_post2)]).
Proof. reflexivity. Qed.

(** C9 as stated fails on the spelling of the placeholder: the entry of
    a post of a group without public username carries "No public link",
    with a capital, and nowhere the string "no public link". *)
Lemma placeholder_spelling :
  post_link ex_private_entity ex_post2 = "No public link" /\
  exists s,
    post_entry ex_checker (ex_private_entity, ex_post2, "-1001234") = Some s /\
    Str.contains "[Post Link](No public link)" s = true /\
    Str.contains "no public link" s = false.
Proof.
  split; [reflexivity |]. eexists. split; [reflexivity |].
  split; vm_compute; reflexivity.
Qed.

(** The links written for the two kinds of group, posts and comments. *)
Lemma digest_links_witness :
  ((exists es,
       files (snd (save_posts ex_checker 1%positive ex_world_links)) !! saved_posts_md =
       Some (Str.concat es)) /\
   (exists es,
       files (snd (save_comments ex_checker 2%positive ex_world_links))
         !! saved_comments_md = Some (Str.concat es))) /\
  post_link ex_entity ex_post1 = "https://t.me/a/1" /\
  comment_link ex_entity ex_post1 ex_reply1 = "https://t.me/a/1?comment=10" /\
  files (snd (save_comments ex_checker 2%positive ex_world_links)) !! saved_comments_md =
  Some (entry_layout "**Comment Date:**" "**Comment:**" "Comment Link" "-1001234"
                     "63849639600000000" (repl "URGENT" +:+ " too") "No public link" +:+
        entry_layout "**Comment Date:**" "**Comment:**" "Comment Link" "a"
                     "63849643200000000" (repl "urgent" +:+ " fix")
                     "https://t.me/a/1?comment=10").
Proof.
  split; [| repeat split; vm_compute; reflexivity].
  destruct (digest_links ex_checker ex_world_links 1%positive 2%positive _ _
              ex_world_links_posts ex_world_links_comments)
    as [[es [Hes _]] [es' [Hes' _]]].
  split; [now exists es | now exists es'].
Defined.

Lemma save_sorts_in_place_witness :
  heap (snd (save_posts ex_checker 1%positive ex_world)) !! 1%positive =
  Some (Posts [(ex_entity, ex_post2, "a"); (ex_entity, ex_post1, "a")]) /\
  heap (snd (save_comments ex_checker 2%positive ex_world)) !! 2%positive =
  Some (Comments [(ex_entity, ex_reply2, "a", ex_post2);
                  (ex_entity, ex_reply1, "a", ex_post1)]).
Proof.
  pose proof (save_sorts_in_place ex_checker ex_world 1%positive 2%positive
                ex_posts ex_comments ex_world_posts ex_world_comments) as [Hp Hc].
  split; [exact (proj1 Hp) | exact (proj1 Hc)].
Defined.

(** The whole run on the example, from an empty store: one post and two
    comments are saved. *)
Lemma ex_run :
  let r := run ex_checker ex_client
               {| heap := ∅; files := ∅; stdout := []; clock := ex_now |} in
  fst r = Ok tt /\
  files (snd r) !! saved_posts_md =
  Some (entry_layout "**Date:**" "**Post:**" "Post Link" "a" "63849639600000000"
                     (repl "Urgent" +:+ " issue") "https://t.me/a/1") /\
  stdout (snd r) =
  ["Processing group: a"; "Failed to access group b: no such group";
   "Found 2 posts for the specified period.";
   "Saved 1 posts with keywords in 'saved_posts.md'.";
   "Skipping post 1 from group a due to error: MSG_ID_INVALID";
   "Found 2 comments with keywords for posts in the specified period.";
   "Saved 2 comments with keywords in 'saved_comments.md'."].
Proof. vm_compute. repeat split. Qed.

Lemma ex_matches : matches (Some "Hello world") ["hello"] = true.
Proof. reflexivity. Qed.

End Examples.

(** * Further properties *)

(** ** Fetching *)

Section FetchingMore.
Context `{Runtime}.

Lemma only_prints_refl w : only_prints w w.
Proof. repeat split. exists []. now rewrite app_nil_r. Qed.

Lemma only_prints_trans w1 w2 w3 :
  only_prints w1 w2 -> only_prints w2 w3 -> only_prints w1 w3.
Proof.
  intros (Hh & Hf & Hc & l1 & Hl1) (Hh' & Hf' & Hc' & l2 & Hl2).
  repeat split; try congruence.
  exists (l1 ++ l2)%list. now rewrite Hl2, Hl1, app_assoc.
Qed.

Lemma only_prints_print s w : only_prints w (snd (print s w)).
Proof. repeat split. now exists [s]. Qed.

(** X1: the loop over one stream, by list functions: it stops at the first
    message that is too old, so an exception at the end of the stream is
    met only when no message is too old. *)
Theorem collect_posts_cutoff :
  forall (thr : datetime) (e : entity) (g : string) (msgs : list message)
         (tail : option exn) (acc : list post_t),
    collect_posts thr e g msgs tail acc =
    if existsb (too_old thr) msgs then Ok (acc ++ group_posts thr e g msgs)%list
    else match tail with
         | None => Ok (acc ++ group_posts thr e g msgs)%list
         | Some ex => Raised ex
         end.
Proof.
  intros thr e g msgs tail. unfold group_posts.
  induction msgs as [|msg msgs IH]; intros acc.
  - simpl. rewrite app_nil_r. reflexivity.
  - cbn [collect_posts existsb recent].
    change (dt_ltb (astimezone (date msg)) thr) with (too_old thr msg).
    destruct (too_old thr msg); cbn [orb List.filter map].
    + now rewrite app_nil_r.
    + assert (is_top_level msg = match reply_to_msg_id msg with
                                 | None => true | Some _ => false end) as Et
          by reflexivity.
      destruct (reply_to_msg_id msg); rewrite Et, IH; cbn [map].
      * reflexivity.
      * now rewrite <- !app_assoc.
Qed.

Lemma fetch_groups_only_prints c thr : forall gs acc w,
  only_prints w (snd (fetch_groups c thr gs acc w)).
Proof.
  induction gs as [|g gs IH]; intros acc w; simpl; [apply only_prints_refl |].
  destruct (get_entity c g) as [e|ex]; unfold bind.
  - cbn [print]. unfold lift.
    destruct (let (msgs, tail) := iter_messages c e None in
              collect_posts thr e g msgs tail acc) as [acc'|ex].
    + eapply only_prints_trans; [| apply IH]. apply (only_prints_print _ w).
    + apply (only_prints_print _ w).
  - cbn [print]. eapply only_prints_trans; [| apply IH]. apply (only_prints_print _ w).
Qed.

(** X2: the groups that cannot be resolved do not change the posts fetched,
    whatever the state of the console. *)
Theorem fetch_groups_skips_unresolvable :
  forall (c : client) (thr : datetime) (gs : list string) (acc : list post_t)
         (w w' : world),
    fst (fetch_groups c thr gs acc w) =
    fst (fetch_groups c thr (List.filter (resolvable c) gs) acc w').
Proof.
  intros c thr. induction gs as [|g gs IH]; intros acc w w'; simpl; [reflexivity |].
  unfold resolvable at 1. destruct (get_entity c g) as [e|ex] eqn:Eg.
  - simpl. rewrite Eg. unfold bind. cbn [print]. unfold lift.
    destruct (let (msgs, tail) := iter_messages c e None in
              collect_posts thr e g msgs tail acc) as [acc'|ex]; [apply IH | reflexivity].
  - unfold bind. cbn [print]. apply IH.
Qed.

Lemma fetch_groups_all c thr : forall gs acc w,
  forallb (stream_passes c thr) gs = true ->
  fst (fetch_groups c thr gs acc w) =
  Ok (acc ++ flat_map (posts_of_group c thr) gs)%list.
Proof.
  induction gs as [|g gs IH]; intros acc w; simpl.
  - intros _. now rewrite app_nil_r.
  - unfold stream_passes at 1, posts_of_group at 1.
    destruct (get_entity c g) as [e|ex]; unfold bind; cbn [print]; unfold lift.
    + destruct (iter_messages c e None) as [msgs tail]. cbn [fst snd].
      rewrite collect_posts_cutoff. intros Hp. apply andb_true_iff in Hp as [Hg Hgs].
      assert ((if existsb (too_old thr) msgs
               then Ok (acc ++ group_posts thr e g msgs)%list
               else match tail with
                    | None => Ok (acc ++ group_posts thr e g msgs)%list
                    | Some ex => Raised ex
                    end) = Ok (acc ++ group_posts thr e g msgs)%list) as ->.
      { destruct (existsb (too_old thr) msgs); [reflexivity |].
        destruct tail; [discriminate | reflexivity]. }
      rewrite IH by assumption. now rewrite <- app_assoc.
    + intros Hp. simpl in Hp. now rewrite IH.
Qed.

(** X3: the posts [fetch_posts] returns when no stream fails before its
    cutoff: group by group in the configured order, each group's recent
    top-level messages in the order of delivery; a group that cannot be
    resolved contributes nothing. *)
Theorem fetch_posts_by_group :
  forall (self : TelegramChecker) (c : client) (w : world) (thr : datetime),
    resolve (time_filter self) (clock w) = Ok thr ->
    forallb (stream_passes c thr) (groups self) = true ->
    fst (fetch_posts self c w) =
    Ok (flat_map (posts_of_group c thr) (groups self)).
Proof.
  intros self c w thr Hthr Hp. unfold fetch_posts, bind at 1, _get_time_filter.
  unfold bind at 1, now, lift. rewrite Hthr. unfold bind at 1.
  pose proof (fetch_groups_all c thr (groups self) [] w Hp) as Hg.
  destruct (fetch_groups c thr (groups self) [] w) as [[ps|ex] w1]; simpl in Hg;
    [| discriminate].
  injection Hg as ->. reflexivity.
Qed.

(** X4: a stream that raises before any message is too old ends
    [fetch_posts]: the exception is not caught and the posts of the
    groups before are not returned. *)
Theorem fetch_posts_stream_failure :
  forall (self : TelegramChecker) (c : client) (w : world) (thr : datetime)
         (gs1 gs2 : list string) (g : string) (e : entity) (ex : exn),
    resolve (time_filter self) (clock w) = Ok thr ->
    groups self = (gs1 ++ g :: gs2)%list ->
    forallb (stream_passes c thr) gs1 = true ->
    get_entity c g = Ok e ->
    existsb (too_old thr) (fst (iter_messages c e None)) = false ->
    snd (iter_messages c e None) = Some ex ->
    fst (fetch_posts self c w) = Raised ex.
Proof.
  intros self c w thr gs1 gs2 g e ex Hthr Hgs Hp He Hold Htail.
  unfold fetch_posts, bind at 1, _get_time_filter.
  unfold bind at 1, now, lift. rewrite Hthr, Hgs. unfold bind at 1.
  assert (forall acc w0, fst (fetch_groups c thr (gs1 ++ g :: gs2) acc w0) = Raised ex)
    as Hfail.
  { clear Hgs. induction gs1 as [|g1 gs1 IH]; intros acc w0.
    - simpl. rewrite He. unfold bind. cbn [print]. unfold lift.
      destruct (iter_messages c e None) as [msgs tail]. simpl in Hold, Htail.
      rewrite collect_posts_cutoff, Hold, Htail. reflexivity.
    - simpl in Hp. apply andb_true_iff in Hp as [Hg1 Hp]. simpl.
      unfold stream_passes in Hg1.
      destruct (get_entity c g1) as [e1|ex1]; unfold bind; cbn [print]; unfold lift.
      + destruct (iter_messages c e1 None) as [msgs tail]. cbn [fst snd] in Hg1.
        rewrite collect_posts_cutoff.
        destruct (existsb (too_old thr) msgs); [now apply IH |].
        destruct tail; [discriminate | now apply IH].
      + now apply IH. }
  specialize (Hfail [] w).
  destruct (fetch_groups c thr (gs1 ++ g :: gs2) [] w) as [[ps|ex'] w1];
    simpl in Hfail; [discriminate | simpl; congruence].
Qed.

(** [fetch_posts] only prints: it changes no list object and no file. *)
Lemma fetch_posts_only_prints self c w : only_prints w (snd (fetch_posts self c w)).
Proof.
  unfold fetch_posts, bind at 1, _get_time_filter. unfold bind at 1, now, lift.
  destruct (resolve (time_filter self) (clock w)) as [thr|ex];
    [| apply only_prints_refl].
  unfold bind at 1. pose proof (fetch_groups_only_prints c thr (groups self) [] w) as Hg.
  destruct (fetch_groups c thr (groups self) [] w) as [[ps|ex] w1]; simpl in Hg;
    [| assumption].
  unfold bind. cbn [print ret snd].
  eapply only_prints_trans; [exact Hg |]. apply (only_prints_print _ w1).
Qed.

Lemma collect_comments_only_prints c x acc w :
  only_prints w (snd (collect_comments c x acc w)).
Proof.
  destruct x as [[e post] g]. unfold collect_comments.
  destruct (replies post); [| apply only_prints_refl].
  destruct (iter_messages c e (Some (id post))) as [rs [[msg| | | |msg]|]];
    try apply only_prints_refl.
  unfold bind. cbn [print ret snd]. apply (only_prints_print _ w).
Qed.

Lemma collect_all_comments_only_prints c : forall posts acc w,
  only_prints w (snd (collect_all_comments c posts acc w)).
Proof.
  induction posts as [|x posts IH]; intros acc w; simpl; [apply only_prints_refl |].
  unfold bind. pose proof (collect_comments_only_prints c x acc w) as Hx.
  destruct (collect_comments c x acc w) as [[acc'|ex] w1]; simpl in Hx; [| assumption].
  eapply only_prints_trans; [exact Hx | apply IH].
Qed.

Lemma fetch_comments_only_prints self c posts w :
  only_prints w (snd (fetch_comments self c posts w)).
Proof.
  unfold fetch_comments, bind at 1.
  pose proof (collect_all_comments_only_prints c posts [] w) as Hc.
  destruct (collect_all_comments c posts [] w) as [[cs|ex] w1]; simpl in Hc;
    [| assumption].
  unfold bind. cbn [print ret snd].
  eapply only_prints_trans; [exact Hc |]. apply (only_prints_print _ w1).
Qed.

(** X5: the fetchers only print: neither [fetch_posts] nor [fetch_comments]
    changes a list object, a file or the clock, and the console keeps
    the lines it had. *)
Theorem fetchers_only_print :
  forall (self : TelegramChecker) (c : client) (posts : list post_t) (w : world),
    only_prints w (snd (fetch_posts self c w)) /\
    only_prints w (snd (fetch_comments self c posts w)).
Proof.
  intros. split; [apply fetch_posts_only_prints | apply fetch_comments_only_prints].
Qed.

Lemma collect_comments_passes c x acc w :
  reply_stream_passes c x = true ->
  fst (collect_comments c x acc w) = Ok (acc ++ replies_of c x)%list.
Proof.
  destruct x as [[e post] g]. unfold reply_stream_passes, replies_of, collect_comments.
  destruct (replies post); [| intros _; simpl; now rewrite app_nil_r].
  destruct (iter_messages c e (Some (id post))) as [rs [[msg| | | |msg]|]];
    simpl; (discriminate || reflexivity).
Qed.

Lemma collect_all_comments_passes c : forall posts acc w,
  forallb (reply_stream_passes c) posts = true ->
  fst (collect_all_comments c posts acc w) =
  Ok (acc ++ flat_map (replies_of c) posts)%list.
Proof.
  induction posts as [|x posts IH]; intros acc w; simpl.
  - intros _. now rewrite app_nil_r.
  - intros Hp. apply andb_true_iff in Hp as [Hx Hp]. unfold bind.
    pose proof (collect_comments_passes c x acc w Hx) as Hc.
    destruct (collect_comments c x acc w) as [[acc'|ex] w1]; simpl in Hc;
      [| discriminate].
    injection Hc as ->. rewrite IH by assumption. now rewrite <- app_assoc.
Qed.

(** X6: the comments [fetch_comments] returns when no reply stream raises
    anything but [MsgIdInvalidError]: the replies of every post that
    supports comments, whether the post holds a keyword or not, in the
    order of the posts, each with the entity, the group label and the post
    it was streamed for; then the keyword filter. *)
Theorem fetch_comments_by_post :
  forall (self : TelegramChecker) (c : client) (posts : list post_t) (w : world),
    forallb (reply_stream_passes c) posts = true ->
    fst (fetch_comments self c posts w) =
    Ok (filter_comments self (flat_map (replies_of c) posts)).
Proof.
  intros self c posts w Hp. unfold fetch_comments, bind at 1.
  pose proof (collect_all_comments_passes c posts [] w Hp) as Hc.
  destruct (collect_all_comments c posts [] w) as [[cs|ex] w1]; simpl in Hc;
    [| discriminate].
  injection Hc as ->. reflexivity.
Qed.

(** X7: any other exception of a reply stream ends [fetch_comments]: it is
    raised to the caller and the comments collected so far are lost. *)
Theorem fetch_comments_stream_failure :
  forall (self : TelegramChecker) (c : client) (w : world)
         (ps1 ps2 : list post_t) (e : entity) (post : message) (g : string)
         (n : Z) (ex : exn),
    forallb (reply_stream_passes c) ps1 = true ->
    replies post = Some n ->
    snd (iter_messages c e (Some (id post))) = Some ex ->
    (forall msg, ex <> MsgIdInvalidError msg) ->
    fst (fetch_comments self c (ps1 ++ (e, post, g) :: ps2) w) = Raised ex.
Proof.
  intros self c w ps1 ps2 e post g n ex Hp Hr Htail Hex.
  unfold fetch_comments, bind at 1.
  assert (forall acc w0,
             fst (collect_all_comments c (ps1 ++ (e, post, g) :: ps2) acc w0) = Raised ex)
    as Hfail.
  { induction ps1 as [|x ps1 IH]; intros acc w0.
    - simpl. unfold bind, collect_comments. rewrite Hr.
      destruct (iter_messages c e (Some (id post))) as [rs tail]. simpl in Htail.
      subst tail. destruct ex; try reflexivity. now destruct (Hex msg).
    - simpl in Hp. apply andb_true_iff in Hp as [Hx Hp]. simpl. unfold bind.
      pose proof (collect_comments_passes c x acc w0 Hx) as Hc.
      destruct (collect_comments c x acc w0) as [[acc'|ex'] w1]; simpl in Hc;
        [| discriminate].
      now apply IH. }
  specialize (Hfail [] w).
  destruct (collect_all_comments c (ps1 ++ (e, post, g) :: ps2) [] w)
    as [[cs|ex'] w1]; simpl in Hfail; [discriminate | simpl; congruence].
Qed.




End FetchingMore.

(** ** Digest writers *)

Section WritersMore.
Context `{Runtime}.

Lemma digest_all_or_none {A} (entry : A -> option string) l :
  snd (digest entry l) = true <-> forall x, In x l -> entry x <> None.
Proof.
  split; [| apply digest_complete].
  induction l as [|x l IH]; simpl; [easy |].
  destruct (entry x) as [s|] eqn:E; [| discriminate].
  destruct (digest entry l) as [d ok]. simpl in *.
  intros Hok y [<- | Hy]; [congruence | now apply IH].
Qed.

Lemma digest_incomplete {A} (entry : A -> option string) l x :
  In x l -> entry x = None -> snd (digest entry l) = false.
Proof.
  intros Hx Ex. destruct (snd (digest entry l)) eqn:Ed; [| reflexivity].
  now destruct (proj1 (digest_all_or_none entry l) Ed x Hx).
Qed.

Lemma digest_stops {A} (entry : A -> option string) l1 x l2 :
  (forall y, In y l1 -> entry y <> None) -> entry x = None ->
  digest entry (l1 ++ x :: l2) = (fst (digest entry l1), false).
Proof.
  intros Hl1 Hx. induction l1 as [|y l1 IH]; simpl.
  - now rewrite Hx.
  - destruct (entry y) as [s|] eqn:E; [| now destruct (Hl1 y (or_introl eq_refl))].
    rewrite IH by (intros z Hz; apply Hl1; now right).
    destruct (digest entry l1) as [d ok]. reflexivity.
Qed.

Lemma post_entry_text self x : post_entry self x <> None <-> text (snd (fst x)) <> None.
Proof. destruct x as [[e p] g]. unfold post_entry. simpl. now destruct (text p). Qed.

Lemma comment_entry_text self x :
  comment_entry self x <> None <-> text (snd (fst (fst x))) <> None.
Proof. destruct x as [[[e r] g] p]. unfold comment_entry. simpl. now destruct (text r). Qed.

(** X8: a writer changes no file but its own, and not the clock. *)
Theorem save_changes_only_its_file :
  forall (self : TelegramChecker) (w : world) (posts comments : loc)
         (lp : list post_t) (lc : list comment_t),
    heap w !! posts = Some (Posts lp) ->
    heap w !! comments = Some (Comments lc) ->
    (forall path, path <> saved_posts_md ->
       files (snd (save_posts self posts w)) !! path = files w !! path) /\
    (forall path, path <> saved_comments_md ->
       files (snd (save_comments self comments w)) !! path = files w !! path) /\
    clock (snd (save_posts self posts w)) = clock w /\
    clock (snd (save_comments self comments w)) = clock w.
Proof.
  intros self w posts comments lp lc Hp Hc.
  rewrite (save_posts_run self posts w lp Hp), (save_comments_run self comments w lc Hc).
  unfold after_save. cbn [snd files clock]. repeat split.
  - intros path Hne. apply lookup_insert_ne. congruence.
  - intros path Hne. apply lookup_insert_ne. congruence.
Qed.

(** X9: a writer completes exactly when every item has a text; it then
    prints one line with the number of items it was given.  Otherwise it
    raises [TypeError] and prints nothing. *)
Theorem save_requires_text :
  forall (self : TelegramChecker) (w : world) (posts comments : loc)
         (lp : list post_t) (lc : list comment_t),
    heap w !! posts = Some (Posts lp) ->
    heap w !! comments = Some (Comments lc) ->
    ((forall x, In x lp -> text (snd (fst x)) <> None) ->
       save_posts self posts w =
       (Ok tt, {| heap := <[posts := Posts (sort_by post_date lp)]> (heap w);
                  files := <[saved_posts_md :=
                               fst (digest (post_entry self) (sort_by post_date lp))]>
                             (files w);
                  stdout := (stdout w ++ [saved_posts_msg (length lp)])%list;
                  clock := clock w |})) /\
    ((exists x, In x lp /\ text (snd (fst x)) = None) ->
       fst (save_posts self posts w) = Raised TypeError /\
       stdout (snd (save_posts self posts w)) = stdout w) /\
    ((forall x, In x lc -> text (snd (fst (fst x))) <> None) ->
       save_comments self comments w =
       (Ok tt, {| heap := <[comments := Comments (sort_by comment_date lc)]> (heap w);
                  files := <[saved_comments_md :=
                               fst (digest (comment_entry self)
                                           (sort_by comment_date lc))]> (files w);
                  stdout := (stdout w ++ [saved_comments_msg (length lc)])%list;
                  clock := clock w |})) /\
    ((exists x, In x lc /\ text (snd (fst (fst x))) = None) ->
       fst (save_comments self comments w) = Raised TypeError /\
       stdout (snd (save_comments self comments w)) = stdout w).
Proof.
  intros self w posts comments lp lc Hp Hc.
  rewrite (save_posts_run self posts w lp Hp), (save_comments_run self comments w lc Hc).
  unfold after_save. cbn zeta.
  pose proof (sort_by_perm post_date lp) as Pp.
  pose proof (sort_by_perm comment_date lc) as Pc.
  split; [| split; [| split]].
  - intros Hall.
    assert (snd (digest (post_entry self) (sort_by post_date lp)) = true) as ->.
    { apply digest_all_or_none. intros x Hx. apply post_entry_text, Hall.
      now apply (Permutation_in _ Pp). }
    now rewrite (Permutation_length Pp).
  - intros [x [Hx Ex]].
    rewrite (digest_incomplete (post_entry self) (sort_by post_date lp) x).
    + split; reflexivity.
    + now apply (Permutation_in _ (Permutation_sym Pp)).
    + destruct x as [[e p] g]. unfold post_entry. simpl in Ex. now rewrite Ex.
  - intros Hall.
    assert (snd (digest (comment_entry self) (sort_by comment_date lc)) = true) as ->.
    { apply digest_all_or_none. intros x Hx. apply comment_entry_text, Hall.
      now apply (Permutation_in _ Pc). }
    now rewrite (Permutation_length Pc).
  - intros [x [Hx Ex]].
    rewrite (digest_incomplete (comment_entry self) (sort_by comment_date lc) x).
    + split; reflexivity.
    + now apply (Permutation_in _ (Permutation_sym Pc)).
    + destruct x as [[[e r] g] p]. unfold comment_entry. simpl in Ex. now rewrite Ex.
Qed.

(** X10: when an item has no text the file is left with the entries of the
    items dated before it: the writer stops in the middle of the sorted
    list, the list object stays sorted. *)
Theorem save_posts_partial_digest :
  forall (self : TelegramChecker) (w : world) (posts : loc) (lp l1 l2 : list post_t)
         (x : post_t),
    heap w !! posts = Some (Posts lp) ->
    sort_by post_date lp = (l1 ++ x :: l2)%list ->
    (forall y, In y l1 -> text (snd (fst y)) <> None) ->
    text (snd (fst x)) = None ->
    save_posts self posts w =
    (Raised TypeError,
     {| heap := <[posts := Posts (l1 ++ x :: l2)%list]> (heap w);
        files := <[saved_posts_md := fst (digest (post_entry self) l1)]> (files w);
        stdout := stdout w; clock := clock w |}) /\
    snd (digest (post_entry self) l1) = true.
Proof.
  intros self w posts lp l1 l2 x Hp Hs Hl1 Hx.
  assert (forall y, In y l1 -> post_entry self y <> None) as Hl1'
      by (intros y Hy; now apply post_entry_text, Hl1).
  assert (post_entry self x = None) as Hx'.
  { destruct x as [[e p] g]. unfold post_entry. simpl in Hx. now rewrite Hx. }
  split; [| now apply digest_all_or_none].
  rewrite (save_posts_run self posts w lp Hp). cbn zeta. rewrite Hs.
  unfold after_save. now rewrite (digest_stops _ l1 x l2 Hl1' Hx').
Qed.

End WritersMore.

(** ** The run *)

Section RunMore.
Context `{Runtime}.







End RunMore.

(** ** Highlighter and keyword filter *)

Section HighlightMore.
Context `{Runtime}.

Lemma render_without_hits f segs off :
  spans off segs = [] -> Str.concat (map (render f) segs) = raw segs.
Proof.
  unfold raw. revert off; induction segs as [|[g|m] segs IH]; intros off; simpl;
    [reflexivity | | discriminate].
  intros Hs. now rewrite (IH _ Hs).
Qed.

Lemma render_length segs off :
  String.length (Str.concat (map (render repl) segs)) =
  (String.length (raw segs) +
   length (spans off segs) * (String.length span_open + String.length span_close))%nat.
Proof.
  unfold raw.
  assert (forall m, String.length (repl m) =
                    (String.length m +
                     (String.length span_open + String.length span_close))%nat) as Hrepl.
  { intros m. unfold repl. rewrite !StrFacts.length_app. lia. }
  remember (String.length span_open + String.length span_close)%nat as tags.
  revert off; induction segs as [|[g|m] segs IH]; intros off; cbn [map render spans].
  - reflexivity.
  - cbn [Str.concat fold_right]. fold (Str.concat (map (render repl) segs)).
    fold (Str.concat (map (render (fun m => m)) segs)).
    rewrite !StrFacts.length_app, (IH (off + String.length g)%nat). lia.
  - cbn [Str.concat fold_right length]. fold (Str.concat (map (render repl) segs)).
    fold (Str.concat (map (render (fun m => m)) segs)).
    rewrite !StrFacts.length_app, Hrepl, (IH (off + String.length m)%nat). lia.
Qed.

(** A scan without a match shows that no keyword occurs in the text. *)
Lemma no_spans_no_occurrence (T : string) (K : list string) :
  K <> [] -> spans 0 (segments T K) = [] ->
  forall k p m, In k K -> ci_eq k m -> occurs_at T p m -> False.
Proof.
  intros HK Hs k p m Hin Hk [pre [post [Et Hp]]]. unfold segments in Hs.
  rewrite (branches_nonempty K HK) in Hs.
  destruct (scan_complete K (2 * String.length T + 2) false T 0) with
    (k := k) (pre := pre) (m := m) (post := post)
    as [s [m' [Hin' _]]]; try assumption; [lia | discriminate |].
  now rewrite Hs in Hin'.
Qed.

(** X13: a text in which no keyword occurs, case ignored, comes back
    unchanged. *)
Theorem highlight_without_occurrence :
  forall (T : string) (K : list string),
    K <> [] ->
    (forall k p m, In k K -> ci_eq k m -> occurs_at T p m -> False) ->
    highlight_keywords T K = T.
Proof.
  intros T K HK Hno. unfold highlight_keywords, segments.
  rewrite (branches_nonempty K HK).
  rewrite (render_without_hits repl _ 0); [apply scan_raw |].
  destruct (spans 0 (scan (2 * String.length T + 2) K false T)) as [|[s m] l] eqn:Es;
    [reflexivity |].
  exfalso.
  destruct (scan_sound (2 * String.length T + 2) K false T 0 s m)
    as [[k [Hin Hk]] [pre [post [Et Hs]]]]; [rewrite Es; now left |].
  apply (Hno k s m Hin Hk). exists pre, post. split; [assumption | lia].
Qed.

(** X14: the output is longer than the text by one pair of tags for every
    match, for any keyword list. *)
Theorem highlight_length :
  forall (T : string) (K : list string),
    String.length (highlight_keywords T K) =
    (String.length T +
     length (spans 0 (segments T K)) *
     (String.length span_open + String.length span_close))%nat.
Proof.
  intros T K. unfold highlight_keywords.
  rewrite (render_length _ 0). unfold segments. now rewrite scan_raw.
Qed.

(** X15: for a text and keywords on which [str.lower] is the
    character-wise folding of the pattern (as it is on ASCII strings), a
    text that passes the keyword filter has at least one match in the
    highlighter. *)
Theorem filtered_text_is_highlighted :
  forall (t : string) (K : list string),
    str_lower t = Str.map fold t ->
    (forall k, In k K -> str_lower k = Str.map fold k) ->
    matches (Some t) K = true ->
    exists s m, In (s, m) (spans 0 (segments t K)).
Proof.
  intros t K Ht HK' Hm.
  apply matches_spec in Hm as [t' [[= <-] [_ [k [Hin Hocc]]]]].
  destruct Hocc as [pre [post Hocc]]. rewrite Ht, (HK' k Hin) in Hocc.
  apply StrFacts.map_app_inv in Hocc as [ta [tb [Et [_ Eb]]]].
  apply StrFacts.map_app_inv in Eb as [m [tpost [Eb [Em _]]]].
  assert (ci_eq k m) as Hk by (unfold ci_eq; now symmetry).
  assert (K <> []) as HK by (intros ->; destruct Hin).
  unfold segments. rewrite (branches_nonempty K HK).
  destruct (scan_complete K (2 * String.length t + 2) false t 0) with
    (k := k) (pre := ta) (m := m) (post := tpost)
    as [s [m' [Hs _]]]; try assumption; [lia | now rewrite Et, Eb | discriminate |].
  now exists s, m'.
Qed.

Lemma existsb_incl {A} (f : A -> bool) l1 l2 :
  (forall x, In x l1 -> In x l2) -> existsb f l1 = true -> existsb f l2 = true.
Proof.
  intros Hincl. rewrite !existsb_exists. intros [x [Hx Hf]]. exists x. split; auto.
Qed.

(** X16: the keyword list of the filter: without keywords nothing is kept,
    and more keywords never keep less. *)
Theorem keyword_filter_keywords :
  forall (self self' : TelegramChecker) (posts : list post_t) (comments : list comment_t),
    (keywords self = [] ->
       filter_posts_by_keywords self posts = [] /\ filter_comments self comments = []) /\
    ((forall k, In k (keywords self) -> In k (keywords self')) ->
       (forall x, In x (filter_posts_by_keywords self posts) ->
                  In x (filter_posts_by_keywords self' posts)) /\
       (forall x, In x (filter_comments self comments) ->
                  In x (filter_comments self' comments))).
Proof.
  intros self self' posts comments. split.
  - intros HK. unfold filter_posts_by_keywords, filter_comments. rewrite HK. split.
    + induction posts as [|[[e p] g] posts IH]; [reflexivity |]. simpl.
      unfold matches at 1. destruct (text p) as [t|]; [| exact IH].
      simpl. rewrite andb_false_r. exact IH.
    + induction comments as [|[[[e r] g] p] comments IH]; [reflexivity |]. simpl.
      unfold matches at 1. destruct (text r) as [t|]; [| exact IH].
      simpl. rewrite andb_false_r. exact IH.
  - intros Hincl.
    assert (forall txt, matches txt (keywords self) = true ->
                        matches txt (keywords self') = true) as Hmono.
    { intros [t|]; [| discriminate]. unfold matches.
      rewrite !andb_true_iff. intros [Hne Hex]. split; [assumption |].
      now apply (existsb_incl _ (keywords self)). }
    unfold filter_posts_by_keywords, filter_comments. split.
    + intros [[e p] g]. rewrite !filter_In. intros [Hx Hm]. split; auto.
    + intros [[[e r] g] p]. rewrite !filter_In. intros [Hx Hm]. split; auto.
Qed.

(** X17: an empty keyword in the list makes the filter keep every text that
    is not empty. *)
Theorem empty_keyword_matches_all :
  forall (t : string) (K : list string),
    In EmptyString K ->
    matches (Some t) K = negb (Str.is_empty t).
Proof.
  intros t K Hin. unfold matches.
  assert (existsb (fun keyword => Str.contains (str_lower keyword) (str_lower t)) K = true)
    as ->.
  { apply existsb_exists. exists EmptyString. split; [assumption |].
    apply StrFacts.contains_spec. exists EmptyString, (str_lower t).
    now rewrite str_lower_empty. }
  apply andb_true_r.
Qed.

(** X18: the filter ignores case: a text and another one with the same lower
    case, or two keyword lists with the same lower case, give the same
    verdict. *)
Theorem keyword_filter_ignores_case :
  forall (t t' : string) (K K' : list string),
    str_lower t = str_lower t' ->
    map str_lower K = map str_lower K' ->
    matches (Some t) K = matches (Some t') K'.
Proof.
  intros t t' K K' Et EK. unfold matches. f_equal.
  - f_equal. now rewrite <- (str_lower_is_empty t), Et, str_lower_is_empty.
  - rewrite <- Et.
    transitivity (existsb (fun lk => Str.contains lk (str_lower t)) (map str_lower K)).
    + clear. induction K as [|k K IH]; simpl; [reflexivity | now rewrite IH].
    + rewrite EK. clear. induction K' as [|k K IH]; simpl; [reflexivity | now rewrite IH].
Qed.

End HighlightMore.

(** ** Time window *)

Section TimeWindowMore.
Local Open Scope Z_scope.

(** X19: the threshold of a window that is not negative never lies after the
    current time, and that of window 0 lies less than a day back; a
    negative window puts the threshold after the current time. *)
Theorem threshold_and_now :
  forall (now t : datetime) (h : Z),
    valid_datetime now ->
    resolve h now = Ok t ->
    (0 <= h -> dt_leb t now = true) /\
    (h = 0 -> to_us now - to_us t < DAY_US) /\
    (h < 0 -> dt_ltb now t = true).
Proof.
  intros now t h Hv Hr. pose proof Hv as [Ho Hm].
  assert (h <> 0 -> t = of_us (to_us now - h * HOUR_US)) as Ht.
  { intros Hh. unfold resolve, timedelta_hours, datetime_sub in Hr.
    destruct (Z.eqb_spec h 0); [contradiction |].
    destruct (Z.abs (h * HOUR_US / DAY_US) <=? MAX_DELTA_DAYS); [| discriminate].
    destruct ((1 <=? ordinal (of_us (to_us now - h * HOUR_US))) &&
              (ordinal (of_us (to_us now - h * HOUR_US)) <=? MAXORDINAL));
      [| discriminate].
    now injection Hr as <-. }
  split; [| split].
  - intros Hh. destruct (Z.eq_dec h 0) as [-> | Hne].
    + injection Hr as <-. apply dt_leb_spec; [simpl; unfold DAY_US; lia | assumption |].
      unfold to_us. simpl. lia.
    + rewrite (Ht Hne), <- (of_us_to_us now Hm) at 1.
      rewrite (of_us_to_us now Hm). rewrite <- (of_us_to_us now Hm) at 2.
      apply dt_leb_of_us. unfold HOUR_US. lia.
  - intros ->. injection Hr as <-. unfold to_us. simpl. lia.
  - intros Hh. rewrite (Ht ltac:(lia)).
    assert (dt_leb (of_us (to_us now - h * HOUR_US)) now = false) as Hle.
    { destruct (dt_leb (of_us (to_us now - h * HOUR_US)) now) eqn:E; [| reflexivity].
      apply dt_leb_spec in E; [| unfold of_us; simpl; apply Z.mod_pos_bound;
                                  unfold DAY_US; lia | assumption].
      rewrite to_us_of_us in E. unfold HOUR_US in E. lia. }
    unfold dt_leb in Hle. now apply negb_false_iff in Hle.
Qed.

End TimeWindowMore.

(** ** Worked examples of the further properties *)

Section MoreExamples.
#[local] Existing Instance ascii_runtime.

Lemma fetch_posts_by_group_witness :
  fst (fetch_posts ex_checker ex_client ex_world) = Ok ex_posts.
Proof.
  exact (fetch_posts_by_group ex_checker ex_client ex_world
           {| ordinal := 739000; micros := 0 |} eq_refl eq_refl).
Defined.

Lemma fetch_posts_stream_failure_witness :
  fst (fetch_posts ex_checker ex_failing_client ex_world) =
  Raised (OtherError "flood wait").
Proof.
  exact (fetch_posts_stream_failure ex_checker ex_failing_client ex_world
           {| ordinal := 739000; micros := 0 |} [] ["b"] "a" ex_entity
           (OtherError "flood wait") eq_refl eq_refl eq_refl eq_refl eq_refl eq_refl).
Defined.

Lemma fetch_comments_by_post_witness :
  fst (fetch_comments ex_checker ex_client ex_posts ex_world) = Ok ex_comments.
Proof.
  exact (fetch_comments_by_post ex_checker ex_client ex_posts ex_world eq_refl).
Defined.

Lemma fetch_comments_stream_failure_witness :
  fst (fetch_comments ex_checker ex_failing_client ex_posts ex_world) =
  Raised (OtherError "flood wait").
Proof.
  exact (fetch_comments_stream_failure ex_checker ex_failing_client ex_world
           [] [(ex_entity, ex_post2, "a")] ex_entity ex_post1 "a" 1%Z
           (OtherError "flood wait") eq_refl eq_refl eq_refl
           ltac:(discriminate)).
Defined.

Lemma save_changes_only_its_file_witness :
  clock (snd (save_posts ex_checker 1%positive ex_world)) = ex_now.
Proof.
  exact (proj1 (proj2 (proj2 (save_changes_only_its_file ex_checker ex_world
                                1%positive 2%positive ex_posts ex_comments
                                ex_world_posts ex_world_comments)))).
Defined.

Lemma save_requires_text_witness :
  fst (save_posts ex_checker 1%positive ex_world) = Ok tt.
Proof.
  pose proof (save_requires_text ex_checker ex_world 1%positive 2%positive
                ex_posts ex_comments ex_world_posts ex_world_comments) as [Hok _].
  rewrite Hok; [reflexivity |].
  intros x [<- | [<- | []]]; discriminate.
Defined.

Lemma save_posts_partial_digest_witness :
  fst (save_posts ex_checker 1%positive ex_world_no_text) = Raised TypeError /\
  files (snd (save_posts ex_checker 1%positive ex_world_no_text)) !! saved_posts_md =
  Some (fst (digest (post_entry ex_checker) [(ex_entity, ex_post2, "a")])).
Proof.
  pose proof (save_posts_partial_digest ex_checker ex_world_no_text 1%positive
                ex_posts_no_text [(ex_entity, ex_post2, "a")]
                [(ex_entity, ex_post1, "a")] (ex_entity, ex_no_text, "a")
                eq_refl eq_refl) as Hp.
  destruct Hp as [Hp _]; [intros y [<- | []]; discriminate | reflexivity |].
  rewrite Hp. split; [reflexivity | apply lookup_insert_eq].
Defined.



Lemma highlight_without_occurrence_witness :
  highlight_keywords "nothing here, Urgen t" ["urgent"; "fix"] = "nothing here, Urgen t".
Proof.
  apply highlight_without_occurrence; [discriminate |].
  apply no_spans_no_occurrence; [discriminate | reflexivity].
Defined.

Lemma filtered_text_is_highlighted_witness :
  exists s m, In (s, m) (spans 0 (segments "Urgent issue" ["urgent"])).
Proof.
  apply (filtered_text_is_highlighted "Urgent issue" ["urgent"]);
    [reflexivity | | reflexivity].
  intros k [<- | []]. reflexivity.
Defined.

Lemma empty_keyword_matches_all_witness :
  matches (Some "anything") ["urgent"; EmptyString] = true.
Proof.
  exact (empty_keyword_matches_all "anything" ["urgent"; EmptyString]
           (or_intror (or_introl eq_refl))).
Defined.

Lemma keyword_filter_ignores_case_witness :
  matches (Some "URGENT issue") ["Urgent"] = matches (Some "urgent ISSUE") ["urgent"].
Proof.
  exact (keyword_filter_ignores_case "URGENT issue" "urgent ISSUE" ["Urgent"] ["urgent"]
           eq_refl eq_refl).
Defined.

Lemma threshold_and_now_witness :
  dt_leb {| ordinal := 739000; micros := (14 * HOUR_US)%Z |} ex_now = true.
Proof.
  exact (proj1 (threshold_and_now ex_now {| ordinal := 739000; micros := (14 * HOUR_US)%Z |}
                  1 valid_ex_now eq_refl) ltac:(discriminate)).
Defined.

End MoreExamples.
